(** * Point-set registration of DICOMautomaton: AlignPoints.cc and CPD_Shared.cc

    A shallow embedding of the affine transform, the centre-of-mass and
    principal-component aligners and the method dispatch of
    [src/Operations/AlignPoints.cc], and of the sigma-squared initialisation
    and the expectation step of [registration/src/CPD_Shared.cc].

    Numbers.  [AlignPoints.cc] needs only [+ - * /], [sqrt] and comparisons
    on [double]; these are the IEEE 754 binary64 operations of [PrimFloat]
    (round to nearest, no contraction of [a*b+c]), so that module computes,
    NaN and signed zeros included.  [CPD_Shared.cc] calls [exp] and [pow],
    which have no binary64 counterpart in the library.  It is modelled
    twice: over the field of real numbers, for the formulae its functions
    evaluate and for the integer arithmetic of their divisors (rounding,
    underflow and NaN are outside that model), and, for the expectation
    step, over binary64 with [exp] and [pow] as parameters, for what happens
    when the kernel underflows.  Machine integers are [Z] with the
    wrap-around written out. *)

From Stdlib Require Import ZArith List String Ascii Bool Lia.
From Stdlib Require Import Uint63 Floats Reals Lra.
Import ListNotations.

Set Implicit Arguments.

(** ** Exceptions and results *)

Module Exn.

Inductive exception : Type :=
| invalid_argument (what : string)
| runtime_error (what : string).

Inductive result (A : Type) : Type :=
| Return (a : A)
| Throw (e : exception).

Arguments Return {A} a.
Arguments Throw {A} e.

Definition bind {A B : Type} (m : result A) (k : A -> result B) : result B :=
  match m with
  | Return a => k a
  | Throw e => Throw e
  end.

Fixpoint mapM {A B : Type} (f : A -> result B) (l : list A) : result (list B) :=
  match l with
  | [] => Return []
  | a :: l' => bind (f a) (fun b => bind (mapM f l') (fun bs => Return (b :: bs)))
  end.

End Exn.

Import Exn.

Declare Scope result_scope.
Delimit Scope result_scope with result.
Notation "x <- m ;; k" := (bind m (fun x => k))
  (at level 61, m at next level, right associativity) : result_scope.

(** ** AlignPoints.cc over binary64 *)

Module AlignPoints.

Local Open Scope Z_scope.
Local Open Scope result_scope.

(** Modelled from the spec: the macro [isininc] is of YgorMisc.h, not under
    src/; the spec gives the ranges of [coeff] as the inclusive i in [0,3]
    and j in [0,2], so [isininc(A, x, B)] is [A <= x && x <= B]. *)
Definition isininc (a x b : Z) : bool := (a <=? x) && (x <=? b).

(** [std::array<T, 4>] with its subscript; the subscripts of this file are
    constants or guarded by [isininc], so the last cell stands for every
    other index. *)
Record array4 (A : Type) : Type := Array4 { at0 : A; at1 : A; at2 : A; at3 : A }.

Definition subscript {A : Type} (a : array4 A) (i : Z) : A :=
  match i with
  | 0 => at0 a
  | 1 => at1 a
  | 2 => at2 a
  | _ => at3 a
  end.

Definition assign {A : Type} (a : array4 A) (i : Z) (v : A) : array4 A :=
  match i with
  | 0 => Array4 v (at1 a) (at2 a) (at3 a)
  | 1 => Array4 (at0 a) v (at2 a) (at3 a)
  | 2 => Array4 (at0 a) (at1 a) v (at3 a)
  | _ => Array4 (at0 a) (at1 a) (at2 a) v
  end.

(** Modelled from the spec: [vec3<double>] is of YgorMath.h, not under src/.
    The "3D vector ops" of the spec are taken componentwise, [Dot] as the sum
    of the three products and [unit] as the division by the Euclidean
    length. *)
Record vec3 : Type := Vec3 { x : float; y : float; z : float }.

Definition vec3_sub (a b : vec3) : vec3 :=
  Vec3 (x a - x b) (y a - y b) (z a - z b).

Definition vec3_scale (a : vec3) (c : float) : vec3 :=
  Vec3 (x a * c) (y a * c) (z a * c).

Definition vec3_div (a : vec3) (c : float) : vec3 :=
  Vec3 (x a / c) (y a / c) (z a / c).

Definition Dot (a b : vec3) : float :=
  (x a * x b + y a * y b + z a * z b)%float.

Definition unit (a : vec3) : vec3 :=
  let tot := PrimFloat.sqrt (x a * x a + y a * y a + z a * z a) in
  Vec3 (x a / tot) (y a / tot) (z a / tot).

(** [struct AffineTransform]: the private member [t], identity on construction. *)
Record AffineTransform : Type := { t : array4 (array4 float) }.

Definition identity : AffineTransform :=
  {| t := Array4 (Array4 1 0 0 0) (Array4 0 1 0 0) (Array4 0 0 1 0) (Array4 0 0 0 1) |}%float.

Definition fixed_coefficients : exception :=
  invalid_argument "Tried to access fixed coefficients. Refusing to continue.".

Definition not_affine : exception :=
  runtime_error "Transformation is not Affine. Refusing to continue.".

(** [double & coeff(long int i, long int j)]: the guard, then the cell; read
    through the reference ... *)
Definition coeff (T : AffineTransform) (i j : Z) : result float :=
  if negb (isininc 0 i 3) || negb (isininc 0 j 2) then Throw fixed_coefficients
  else Return (subscript (subscript (t T) i) j).

(** ... and written through it: [T.coeff(i,j) = v]. *)
Definition coeff_assign (T : AffineTransform) (i j : Z) (v : float) : result AffineTransform :=
  if negb (isininc 0 i 3) || negb (isininc 0 j 2) then Throw fixed_coefficients
  else Return {| t := assign (t T) i (assign (subscript (t T) i) j v) |}.

(** The four sums of [apply_to(const vec3<double> &)], in source order. *)
Definition apply_x (T : AffineTransform) (p : vec3) : float :=
  (x p * subscript (subscript (t T) 0) 0 + y p * subscript (subscript (t T) 1) 0
   + z p * subscript (subscript (t T) 2) 0 + 1 * subscript (subscript (t T) 3) 0)%float.

Definition apply_y (T : AffineTransform) (p : vec3) : float :=
  (x p * subscript (subscript (t T) 0) 1 + y p * subscript (subscript (t T) 1) 1
   + z p * subscript (subscript (t T) 2) 1 + 1 * subscript (subscript (t T) 3) 1)%float.

Definition apply_z (T : AffineTransform) (p : vec3) : float :=
  (x p * subscript (subscript (t T) 0) 2 + y p * subscript (subscript (t T) 1) 2
   + z p * subscript (subscript (t T) 2) 2 + 1 * subscript (subscript (t T) 3) 2)%float.

Definition apply_w (T : AffineTransform) (p : vec3) : float :=
  (x p * subscript (subscript (t T) 0) 3 + y p * subscript (subscript (t T) 1) 3
   + z p * subscript (subscript (t T) 2) 3 + 1 * subscript (subscript (t T) 3) 3)%float.

(** [vec3<double> apply_to(const vec3<double> &in) const]; [w != 1.0] is the
    IEEE comparison, true on NaN. *)
Definition apply_to (T : AffineTransform) (p : vec3) : result vec3 :=
  let w := apply_w T p in
  if negb (w =? 1)%float then Throw not_affine
  else Return (Vec3 (apply_x T p) (apply_y T p) (apply_z T p)).

(** The layout comment of the source: the cell [t[i][j]] is drawn in column [i]
    and row [j]; the upper-left 3x3 cells are the linear transform, the cells
    [t[3][0..2]] the translation, the cells [t[0..3][3]] the fixed ones. *)
Definition linear_block (T : AffineTransform) : Z -> Z -> float :=
  fun r c => subscript (subscript (t T) c) r.

Definition translation (T : AffineTransform) : Z -> float :=
  fun r => subscript (subscript (t T) 3) r.

Definition fixed_cells (T : AffineTransform) : list float :=
  [subscript (subscript (t T) 0) 3; subscript (subscript (t T) 1) 3;
   subscript (subscript (t T) 2) 3; subscript (subscript (t T) 3) 3].

(** The transforms a client of the struct can build: the constructor, then
    writes through [coeff] that did not throw. *)
Inductive reachable : AffineTransform -> Prop :=
| reach_identity : reachable identity
| reach_assign (T T' : AffineTransform) (i j : Z) (v : float) :
    reachable T -> coeff_assign T i j v = Return T' -> reachable T'.

(** A [double] that is neither NaN nor an infinity. *)
Definition finite (v : float) : bool := negb (is_nan v || is_infinity v).

Definition finite_point (p : vec3) : bool := finite (x p) && finite (y p) && finite (z p).

(** [1e-12] rounded to binary64, and the two cases of the specification: a
    weight "within [1e-12] of 1", and a weight that "differs from 1 by more
    than [1e-12]", which is every other weight, NaN included. *)
Definition tolerance : float := 0x1.19799812dea11p-40.

Definition within_tolerance (w : float) : bool := (abs (w - 1) <=? tolerance)%float.

Definition differs_from_one (w : float) : bool := negb (within_tolerance w).

(** *** Point clouds and centres of mass *)

(** [Point_Cloud] of Structs.h: a vector of pairs whose first component is
    the position; the second component is carried along untouched. *)
Record Point_Cloud (attr : Type) : Type := { points : list (vec3 * attr) }.

(** [Stats::Running_Sum<double>] of YgorStats.h, which is not under src/: an
    accumulator that is created, fed with [Digest] and read with
    [Current_Sum].  The aligners are written against this interface. *)
Class Running_Sum_ops : Type := {
  Running_Sum : Type;
  Running_Sum_new : Running_Sum;
  Digest : Running_Sum -> float -> Running_Sum;
  Current_Sum : Running_Sum -> float
}.

(** Modelled from the spec: the accumulator as the spec describes it, a
    running sum whose summation order follows the input order. *)
#[export] Instance plain_sum : Running_Sum_ops := {
  Running_Sum := float;
  Running_Sum_new := 0%float;
  Digest := PrimFloat.add;
  Current_Sum := fun s => s
}.

(** [static_cast<double>(N)] for a [size_t] below [2^63]. *)
Definition double_of_size (n : nat) : float :=
  PrimFloat.of_uint63 (Uint63.of_Z (Z.of_nat n)).

Section Clouds.

Variable attr : Type.
Context {RS : Running_Sum_ops}.

(** The loop of [est_COM]: three accumulators fed in input order. *)
Definition est_COM_loop (pts : list (vec3 * attr))
  : Running_Sum * Running_Sum * Running_Sum :=
  fold_left
    (fun acc p =>
       let '(COM_sx, COM_sy, COM_sz) := acc in
       (Digest COM_sx (x (fst p)), Digest COM_sy (y (fst p)), Digest COM_sz (z (fst p))))
    pts (Running_Sum_new, Running_Sum_new, Running_Sum_new).

(** The lambda [est_COM], the same in [AlignViaCOM] and [AlignViaPCA]. *)
Definition est_COM (pc : Point_Cloud attr) : vec3 :=
  let N := List.length (points pc) in
  let '(COM_sx, COM_sy, COM_sz) := est_COM_loop (points pc) in
  vec3_div (Vec3 (Current_Sum COM_sx) (Current_Sum COM_sy) (Current_Sum COM_sz))
           (double_of_size N).

(** [void apply_to(Point_Cloud &in)]: every position replaced in order; an
    exception of the pointwise [apply_to] propagates. *)
Definition apply_to_cloud (T : AffineTransform) (pc : Point_Cloud attr)
  : result (Point_Cloud attr) :=
  pts <- mapM (fun p => q <- apply_to T (fst p) ;; Return (q, snd p)) (points pc) ;;
  Return {| points := pts |}.

(** [AlignViaCOM(moving, stationary)]. *)
Definition AlignViaCOM (moving stationary : Point_Cloud attr)
  : result (option AffineTransform) :=
  let t0 := identity in
  let COM_s := est_COM stationary in
  let COM_m := est_COM moving in
  let dCOM := vec3_sub COM_s COM_m in
  t1 <- coeff_assign t0 3 0 (x dCOM) ;;
  t2 <- coeff_assign t1 3 1 (y dCOM) ;;
  t3 <- coeff_assign t2 3 2 (z dCOM) ;;
  Return (Some t3).

End Clouds.

(** *** Principal components *)

(** [Eigen::Matrix3d] and the 3x3 [Eigen::MatrixXd]: a coefficient for every
    (row, column); sums run in index order. *)
Definition Matrix3d : Type := Z -> Z -> float.

Definition component (r : Z) (v : vec3) : float :=
  match r with
  | 0 => x v
  | 1 => y v
  | _ => z v
  end.

(** [S(0,k) = pck.x; S(1,k) = pck.y; S(2,k) = pck.z]: the vectors are the columns. *)
Definition of_columns (c0 c1 c2 : vec3) : Matrix3d :=
  fun r c => component r (match c with 0 => c0 | 1 => c1 | _ => c2 end).

Definition transpose (m : Matrix3d) : Matrix3d := fun r c => m c r.

Definition mat_mul (a b : Matrix3d) : Matrix3d :=
  fun r c => (a r 0%Z * b 0%Z c + a r 1%Z * b 1%Z c + a r 2%Z * b 2%Z c)%float.

Definition mat_vec (a : Matrix3d) (v : vec3) : Z -> float :=
  fun r => (a r 0%Z * x v + a r 1%Z * y v + a r 2%Z * z v)%float.

Record pcomps : Type := { pc1 : vec3; pc2 : vec3; pc3 : vec3 }.

Section PCA.

Variable attr : Type.
Context {RS : Running_Sum_ops}.

(** [std::pow] of the C library. *)
Variable pow : float -> float -> float.

(** [Eigen::SelfAdjointEigenSolver<Eigen::MatrixXd>(cov).eigenvectors()]:
    the matrix whose columns are the eigenvectors of [cov]. *)
Variable eigenvectors : Matrix3d -> Matrix3d.

(** [mat.colwise().mean()], column [c]. *)
Definition colwise_mean (pts : list (vec3 * attr)) (c : Z) : float :=
  (fold_left (fun acc p => acc + component c (fst p)) pts 0
   / double_of_size (List.length pts))%float.

(** [centered.adjoint() * centered] with [centered = mat.rowwise() - mean]. *)
Definition covariance (pts : list (vec3 * attr)) : Matrix3d :=
  fun a b =>
    fold_left
      (fun acc p =>
         acc + (component a (fst p) - colwise_mean pts a)
               * (component b (fst p) - colwise_mean pts b))%float
      pts 0%float.

(** The lambda [est_PCA]. *)
Definition est_PCA (pc : Point_Cloud attr) : pcomps :=
  let cov := covariance (points pc) in
  let evecs := eigenvectors cov in
  {| pc1 := unit (Vec3 (evecs 0 0) (evecs 1 0) (evecs 2 0));
     pc2 := unit (Vec3 (evecs 0 1) (evecs 1 1) (evecs 2 1));
     pc3 := unit (Vec3 (evecs 0 2) (evecs 1 2) (evecs 2 2)) |}.

(** The loop of [reorient_pcomps]: the cubes of the projections of the
    centred points on the three components, accumulated in input order. *)
Definition third_moments (COM : vec3) (comps : pcomps) (pts : list (vec3 * attr))
  : Running_Sum * Running_Sum * Running_Sum :=
  fold_left
    (fun acc v =>
       let '(rs_pc1, rs_pc2, rs_pc3) := acc in
       let sv := vec3_sub (fst v) COM in
       let proj_pc1 := Dot sv (pc1 comps) in
       let proj_pc2 := Dot sv (pc2 comps) in
       let proj_pc3 := Dot sv (pc3 comps) in
       (Digest rs_pc1 (pow proj_pc1 3), Digest rs_pc2 (pow proj_pc2 3),
        Digest rs_pc3 (pow proj_pc3 3)))
    pts (Running_Sum_new, Running_Sum_new, Running_Sum_new).

(** The lambda [reorient_pcomps]. *)
Definition reorient_pcomps (COM : vec3) (comps : pcomps) (pc : Point_Cloud attr) : pcomps :=
  let '(rs_pc1, rs_pc2, rs_pc3) := third_moments COM comps (points pc) in
  {| pc1 := unit (vec3_scale (pc1 comps) (Current_Sum rs_pc1));
     pc2 := unit (vec3_scale (pc2 comps) (Current_Sum rs_pc2));
     pc3 := unit (vec3_scale (pc3 comps) (Current_Sum rs_pc3)) |}.

(** [AlignViaPCA(moving, stationary)]; the log lines are left out. *)
Definition AlignViaPCA (moving stationary : Point_Cloud attr)
  : result (option AffineTransform) :=
  let t0 := identity in
  let COM_s := est_COM stationary in
  let COM_m := est_COM moving in
  let pcomps_stationary := est_PCA stationary in
  let pcomps_moving := est_PCA moving in
  let reoriented_pcomps_stationary := reorient_pcomps COM_s pcomps_stationary stationary in
  let reoriented_pcomps_moving := reorient_pcomps COM_m pcomps_moving moving in
  let S := of_columns (pc1 reoriented_pcomps_stationary)
                      (pc2 reoriented_pcomps_stationary)
                      (pc3 reoriented_pcomps_stationary) in
  let M := of_columns (pc1 reoriented_pcomps_moving)
                      (pc2 reoriented_pcomps_moving)
                      (pc3 reoriented_pcomps_moving) in
  let A := mat_mul S (transpose M) in
  t1 <- coeff_assign t0 0 0 (A 0 0) ;;
  t2 <- coeff_assign t1 0 1 (A 1 0) ;;
  t3 <- coeff_assign t2 0 2 (A 2 0) ;;
  t4 <- coeff_assign t3 1 0 (A 0 1) ;;
  t5 <- coeff_assign t4 1 1 (A 1 1) ;;
  t6 <- coeff_assign t5 1 2 (A 2 1) ;;
  t7 <- coeff_assign t6 2 0 (A 0 2) ;;
  t8 <- coeff_assign t7 2 1 (A 1 2) ;;
  t9 <- coeff_assign t8 2 2 (A 2 2) ;;
  let A_e_COM_m := mat_vec A COM_m in
  t10 <- coeff_assign t9 3 0 (x COM_s - A_e_COM_m 0) ;;
  t11 <- coeff_assign t10 3 1 (y COM_s - A_e_COM_m 1) ;;
  t12 <- coeff_assign t11 3 2 (z COM_s - A_e_COM_m 2) ;;
  Return (Some t12).

End PCA.

(** *** The Method argument *)

(** The patterns of this file are made of literal characters, optional
    characters ([c?]) and the two anchors. *)
Inductive atom : Type :=
| One (c : ascii)
| Maybe (c : ascii).

Definition regex : Type := list atom.

Fixpoint compile_atoms (p : list ascii) : regex :=
  match p with
  | [] => []
  | ["$"%char] => []
  | c :: "?"%char :: rest => Maybe c :: compile_atoms rest
  | c :: rest => One c :: compile_atoms rest
  end.

(** Modelled from the spec: [Compile_Regex] (Regex_Selectors.h) is not under
    src/; the spec has the method "matched case-insensitively", which is the
    [std::regex::icase] of the sibling operations. *)
Definition Compile_Regex (pattern : string) : regex :=
  match list_ascii_of_string pattern with
  | "^"%char :: rest => compile_atoms rest
  | p => compile_atoms p
  end.

Definition to_lower (c : ascii) : ascii :=
  let n := nat_of_ascii c in
  if (65 <=? n)%nat && (n <=? 90)%nat then ascii_of_nat (n + 32) else c.

Definition icase_eqb (a b : ascii) : bool := Ascii.eqb (to_lower a) (to_lower b).

Fixpoint match_atoms (r : regex) (s : list ascii) : bool :=
  match r with
  | [] => match s with [] => true | _ => false end
  | One c :: r' =>
      match s with
      | a :: s' => icase_eqb a c && match_atoms r' s'
      | [] => false
      end
  | Maybe c :: r' =>
      match s with
      | a :: s' => (icase_eqb a c && match_atoms r' s') || match_atoms r' s
      | [] => match_atoms r' s
      end
  end.

(** [std::regex_match(s, r)]: the whole of [s] matches. *)
Definition regex_match (s : string) (r : regex) : bool :=
  match_atoms r (list_ascii_of_string s).

Definition regex_com : regex := Compile_Regex "^co?m?$".
Definition regex_pca : regex := Compile_Regex "^pc?a?$".

Definition single_reference : exception :=
  invalid_argument "A single reference point cloud must be selected. Cannot continue.".

Definition method_not_understood : exception :=
  invalid_argument "Method not understood. Cannot continue.".

Fixpoint replace_at {A : Type} (i : nat) (v : A) (l : list A) : list A :=
  match l, i with
  | [], _ => []
  | _ :: l', O => v :: l'
  | a :: l', S i' => a :: replace_at i' v l'
  end.

Section Operation.

Variable attr : Type.
Context {RS : Running_Sum_ops}.
Variable pow : float -> float -> float.
Variable eigenvectors : Matrix3d -> Matrix3d.

(** [if(t_opt)]: the transform, when there is one, applied in place to the
    cloud at position [it] of the container. *)
Definition transform_in_place (point_data : list (Point_Cloud attr)) (it : nat)
    (t_opt : option AffineTransform) : result (list (Point_Cloud attr)) :=
  match t_opt, nth_error point_data it with
  | Some T, Some pc => pc' <- apply_to_cloud T pc ;; Return (replace_at it pc' point_data)
  | _, _ => Return point_data
  end.

(** The body shared by the two branches of the loop: the aligner called on
    the moving cloud at position [pcp_it] and on the reference cloud at
    position [ref], then its transform applied to the moving cloud in place.
    Both are positions in the one container [point_data], so a moving cloud
    that is also the reference is one and the same object. *)
Definition align_with
    (aligner : Point_Cloud attr -> Point_Cloud attr -> result (option AffineTransform))
    (ref : nat) (point_data : list (Point_Cloud attr)) (pcp_it : nat)
  : result (list (Point_Cloud attr)) :=
  match nth_error point_data pcp_it, nth_error point_data ref with
  | Some moving, Some stationary =>
      t_opt <- aligner moving stationary ;;
      transform_in_place point_data pcp_it t_opt
  | _, _ => Return point_data
  end.

(** One round of the loop over the moving clouds: the [if / else if / else]
    on the method string. *)
Definition align_one (MethodStr : string) (ref : nat)
    (point_data : list (Point_Cloud attr)) (pcp_it : nat)
  : result (list (Point_Cloud attr)) :=
  if regex_match MethodStr regex_com then
    align_with (@AlignViaCOM attr RS) ref point_data pcp_it
  else if regex_match MethodStr regex_pca then
    align_with (AlignViaPCA pow eigenvectors) ref point_data pcp_it
  else Throw method_not_understood.

Fixpoint align_all (MethodStr : string) (ref : nat)
    (point_data : list (Point_Cloud attr)) (moving_PCs : list nat)
  : result (list (Point_Cloud attr)) :=
  match moving_PCs with
  | [] => Return point_data
  | pcp_it :: rest =>
      point_data' <- align_one MethodStr ref point_data pcp_it ;;
      align_all MethodStr ref point_data' rest
  end.

(** [Drover AlignPoints(...)]: [point_data] is the point-cloud container of
    the [Drover]; [ref_PCs] and [moving_PCs] are the positions that
    [Whitelist] (not under src/) selected for the two selection strings. *)
Definition AlignPoints (point_data : list (Point_Cloud attr))
    (ref_PCs moving_PCs : list nat) (MethodStr : string)
  : result (list (Point_Cloud attr)) :=
  match ref_PCs with
  | [ref] => align_all MethodStr ref point_data moving_PCs
  | _ => Throw single_reference
  end.

End Operation.

(** *** Words of the specification and sample inputs *)

(** "The running sum of coordinates in input order": what the accumulator
    holds after the values were fed to it in order; and the centroid, that
    sum divided by the point count. *)
Definition running_sum {RS : Running_Sum_ops} (l : list float) : float :=
  Current_Sum (fold_left Digest l Running_Sum_new).

Definition mean {attr : Type} {RS : Running_Sum_ops} (pc : Point_Cloud attr) : vec3 :=
  let N := double_of_size (List.length (points pc)) in
  Vec3 (running_sum (map (fun p => x (fst p)) (points pc)) / N)
       (running_sum (map (fun p => y (fst p)) (points pc)) / N)
       (running_sum (map (fun p => z (fst p)) (points pc)) / N).

(** Axis [k] of a triple of components and the third moment along it. *)
Definition axis (k : Z) (comps : pcomps) : vec3 :=
  match k with
  | 0 => pc1 comps
  | 1 => pc2 comps
  | _ => pc3 comps
  end.

Definition third_moment {attr : Type} {RS : Running_Sum_ops} (pow : float -> float -> float) (k : Z)
    (COM : vec3) (comps : pcomps) (pc : Point_Cloud attr) : float :=
  let '(rs_pc1, rs_pc2, rs_pc3) := third_moments pow COM comps (points pc) in
  match k with
  | 0 => Current_Sum rs_pc1
  | 1 => Current_Sum rs_pc2
  | _ => Current_Sum rs_pc3
  end.

(** A method string with its letters in lower case. *)
Definition lowercase (s : string) : string :=
  string_of_list_ascii (map to_lower (list_ascii_of_string s)).

(** *** Notions used to state further properties *)

(** A cloud none of whose positions has a NaN or an infinite coordinate. *)
Definition finite_cloud {attr : Type} (pc : Point_Cloud attr) : bool :=
  forallb (fun p => finite_point (fst p)) (points pc).

(** Two clouds with the same per-point attributes, in the same order (and so
    the same number of points). *)
Definition same_attributes {attr : Type} (pc pc' : Point_Cloud attr) : Prop :=
  map snd (points pc') = map snd (points pc).

(** The transform after a write through [coeff] that did not throw. *)
Definition written (T : AffineTransform) (i j : Z) (v : float) : AffineTransform :=
  {| t := assign (t T) i (assign (subscript (t T) i) j v) |}.

(** What one round of the operator's loop leaves of the container. *)
Definition round_keeps {attr : Type} (it : nat)
    (point_data point_data' : list (Point_Cloud attr)) : Prop :=
  List.length point_data' = List.length point_data /\
  (forall k, k <> it -> nth_error point_data' k = nth_error point_data k) /\
  Forall2 same_attributes point_data point_data'.

Module Samples.

Local Open Scope float_scope.

Definition cloud (l : list vec3) : Point_Cloud Datatypes.unit :=
  {| points := map (fun v => (v, tt)) l |}.

(** The identity with the translation cell [t[3][0]] written. *)
Definition shifted : AffineTransform :=
  {| t := Array4 (Array4 1 0 0 0) (Array4 0 1 0 0) (Array4 0 0 1 0) (Array4 5 0 0 1) |}.

(** Scenario 1 of the specification. *)
Definition tetrahedron : Point_Cloud Datatypes.unit :=
  cloud [Vec3 0 0 0; Vec3 2 0 0; Vec3 0 2 0; Vec3 0 0 2].

Definition tetrahedron_shifted : Point_Cloud Datatypes.unit :=
  cloud [Vec3 5 (-3) 7; Vec3 7 (-3) 7; Vec3 5 (-1) 7; Vec3 5 (-3) 9].

(** The cloud of scenario 2 without its two symmetry-breaking points. *)
Definition octahedron : Point_Cloud Datatypes.unit :=
  cloud [Vec3 1 0 0; Vec3 (-1) 0 0; Vec3 0 2 0; Vec3 0 (-2) 0; Vec3 0 0 3; Vec3 0 0 (-3)].

Definition axes : pcomps :=
  {| pc1 := Vec3 1 0 0; pc2 := Vec3 0 1 0; pc3 := Vec3 0 0 1 |}.

(** A stand-in for [std::pow] that is exact where the cube is a binary64 value. *)
Definition cube (b e : float) : float := b * b * b.

(** A stand-in for the eigen-solver: the coordinate axes, whatever the matrix. *)
Definition coordinate_axes (cov : Matrix3d) : Matrix3d :=
  fun r c => if (r =? c)%Z then 1 else 0.

End Samples.

End AlignPoints.

(** ** CPD_Shared.cc over the real numbers *)

Module CPD_Shared.

Local Open Scope R_scope.

(** [int]: 32 bits, two's complement; a result out of range wraps. *)
Definition INT_MAX : Z := 2147483647.

Definition to_int (v : Z) : Z := ((v + 2 ^ 31) mod 2 ^ 32 - 2 ^ 31)%Z.

Definition int_mul (a b : Z) : Z := to_int (a * b).

(** Integer division truncates towards zero. *)
Definition int_div (a b : Z) : Z := to_int (Z.quot a b).

(** An [int] compared with a [size_t] is converted to it first. *)
Definition size_t_of_int (v : Z) : Z := (v mod 2 ^ 64)%Z.

(** The values [0, 1, ..., n-1] a counting loop runs through. *)
Definition index_range (n : Z) : list Z := map Z.of_nat (seq 0 (Z.to_nat n)).

(** [Eigen::MatrixXd]: the two dimensions and a coefficient for every
    (row, column). *)
Record MatrixXd : Type := { rows : Z; cols : Z; coef : Z -> Z -> R }.

(** [Eigen::MatrixXd::Zero(r, c)]. *)
Definition Zero (r c : Z) : MatrixXd := {| rows := r; cols := c; coef := fun _ _ => 0 |}.

(** [M(i,j) = v]. *)
Definition set_coef (M : MatrixXd) (i j : Z) (v : R) : MatrixXd :=
  {| rows := rows M; cols := cols M;
     coef := fun i' j' => if ((i' =? i) && (j' =? j))%Z then v else coef M i' j' |}.

(** The sum of [f 0 .. f (n-1)], in index order. *)
Definition sum_upto (n : Z) (f : Z -> R) : R :=
  fold_left (fun acc k => acc + f k) (index_range n) 0.

(** [v.squaredNorm()] of a vector of [n] coefficients. *)
Definition squaredNorm (n : Z) (v : Z -> R) : R := sum_upto n (fun k => v k * v k).

(** [M.col(n).sum()]. *)
Definition col_sum (M : MatrixXd) (n : Z) : R := sum_upto (rows M) (fun m => coef M m n).

(** [std::pow] of the C library on a positive base. *)
Definition pow (b e : R) : R := Rpower b e.

(** [double Init_Sigma_Squared(xPoints, yPoints)]. *)
Definition Init_Sigma_Squared (xPoints yPoints : MatrixXd) : R :=
  let nRowsX := to_int (rows xPoints) in
  let mRowsY := to_int (rows yPoints) in
  let dim := to_int (cols xPoints) in
  let normSum :=
    fold_left
      (fun normSum i =>
         fold_left
           (fun normSum j =>
              let rowDiff := fun k => coef xPoints i k - coef yPoints j k in
              normSum + squaredNorm (cols xPoints) rowDiff)
           (index_range mRowsY) normSum)
      (index_range nRowsX) 0 in
  1 / IZR (int_mul (int_mul nRowsX mRowsY) dim) * normSum.

(** The vector [xPoints.row(n).transpose() - (rotationMatrix *
    yPoints.row(m).transpose() + t)] of the first loop of [E_Step]. *)
Definition residual (xPoints yPoints rotationMatrix t : MatrixXd) (m n : Z) : Z -> R :=
  fun i =>
    coef xPoints n i
    - (sum_upto (cols rotationMatrix) (fun k => coef rotationMatrix i k * coef yPoints m k)
       + coef t i 0%Z).

(** The first pair of loops of [E_Step]: [expMat]. *)
Definition E_Step_expMat (xPoints yPoints rotationMatrix t : MatrixXd)
    (sigmaSquared : R) : MatrixXd :=
  let mRowsY := to_int (rows yPoints) in
  let nRowsX := to_int (rows xPoints) in
  fold_left
    (fun expMat m =>
       fold_left
         (fun expMat n =>
            let tempVector := residual xPoints yPoints rotationMatrix t m n in
            let expArg := (-1) / (2 * sigmaSquared) * squaredNorm (cols xPoints) tempVector in
            set_coef expMat m n (exp expArg))
         (index_range (size_t_of_int nRowsX)) expMat)
    (index_range (size_t_of_int mRowsY))
    (Zero (rows yPoints) (rows xPoints)).

(** The constant added to every denominator in the second pair of loops:
    both quotients are quotients of [int]s, converted afterwards. *)
Definition E_Step_constant (xPoints yPoints : MatrixXd) (sigmaSquared w : R) : R :=
  let mRowsY := to_int (rows yPoints) in
  let nRowsX := to_int (rows xPoints) in
  let dimensionality := to_int (cols yPoints) in
  pow (2 * PI * sigmaSquared) (IZR (int_div dimensionality 2))
  * (w / (1 - w)) * IZR (int_div mRowsY nRowsX).

(** [Eigen::MatrixXd E_Step(xPoints, yPoints, rotationMatrix, t,
    sigmaSquared, w, scale)]; the timers are left out, and [scale] is not
    read by the source either. *)
Definition E_Step (xPoints yPoints rotationMatrix t : MatrixXd)
    (sigmaSquared w scale : R) : MatrixXd :=
  let mRowsY := to_int (rows yPoints) in
  let nRowsX := to_int (rows xPoints) in
  let expMat := E_Step_expMat xPoints yPoints rotationMatrix t sigmaSquared in
  fold_left
    (fun postProb m =>
       fold_left
         (fun postProb n =>
            let numerator := coef expMat m n in
            let denominator :=
              col_sum expMat n + E_Step_constant xPoints yPoints sigmaSquared w in
            set_coef postProb m n (numerator / denominator))
         (index_range (size_t_of_int nRowsX)) postProb)
    (index_range (size_t_of_int mRowsY))
    (Zero (rows yPoints) (rows xPoints)).

(** The value the first pair of loops stores in [expMat(m,n)], and the value
    the second pair stores in [postProb(m,n)]. *)
Definition E_Step_kernel (xPoints yPoints rotationMatrix t : MatrixXd)
    (sigmaSquared : R) (m n : Z) : R :=
  exp ((-1) / (2 * sigmaSquared)
       * squaredNorm (cols xPoints) (residual xPoints yPoints rotationMatrix t m n)).

Definition E_Step_quotient (xPoints yPoints rotationMatrix t : MatrixXd)
    (sigmaSquared w : R) (m n : Z) : R :=
  coef (E_Step_expMat xPoints yPoints rotationMatrix t sigmaSquared) m n
  / (col_sum (E_Step_expMat xPoints yPoints rotationMatrix t sigmaSquared) n
     + E_Step_constant xPoints yPoints sigmaSquared w).

(** The posterior as the specification writes it, for [N x 3] and [M x 3]
    inputs: [D = 3], and [D/2] and [M/N] are quotients of real numbers. *)
Definition spec_constant (N M : Z) (sigmaSquared w : R) : R :=
  Rpower (2 * PI * sigmaSquared) (3 / 2) * (w / (1 - w)) * (IZR M / IZR N).

Definition spec_kernel (xPoints yPoints rotationMatrix t : MatrixXd)
    (sigmaSquared : R) (m n : Z) : R :=
  exp (- squaredNorm 3 (residual xPoints yPoints rotationMatrix t m n) / (2 * sigmaSquared)).

Definition spec_posterior (xPoints yPoints rotationMatrix t : MatrixXd)
    (sigmaSquared w : R) (m n : Z) : R :=
  spec_kernel xPoints yPoints rotationMatrix t sigmaSquared m n
  / (sum_upto (rows yPoints)
       (fun m' => spec_kernel xPoints yPoints rotationMatrix t sigmaSquared m' n)
     + spec_constant (rows xPoints) (rows yPoints) sigmaSquared w).

(** The initial variance as the specification writes it, with [D = 3]. *)
Definition spec_sigma_squared (xPoints yPoints : MatrixXd) : R :=
  1 / (IZR (rows xPoints) * IZR (rows yPoints) * 3)
  * sum_upto (rows xPoints)
      (fun n => sum_upto (rows yPoints)
         (fun m => squaredNorm 3 (fun k => coef xPoints n k - coef yPoints m k))).

(** *** The linear-algebra helpers of CPD_Shared.cc *)

(** The Eigen expressions these functions are written with.  A sum or a
    difference has the dimensions of its left operand, a product the rows of
    the left and the columns of the right operand, its inner sum running
    over the columns of the left one.  Eigen leaves operands whose
    dimensions do not agree undefined (an assertion in a debug build); the
    properties below name the agreement they rely on. *)
Definition Ones (r c : Z) : MatrixXd := {| rows := r; cols := c; coef := fun _ _ => 1 |}.

Definition transposed (A : MatrixXd) : MatrixXd :=
  {| rows := cols A; cols := rows A; coef := fun i j => coef A j i |}.

Definition scaled (s : R) (A : MatrixXd) : MatrixXd :=
  {| rows := rows A; cols := cols A; coef := fun i j => s * coef A i j |}.

Definition product (A B : MatrixXd) : MatrixXd :=
  {| rows := rows A; cols := cols B;
     coef := fun i j => sum_upto (cols A) (fun k => coef A i k * coef B k j) |}.

Definition sum_of (A B : MatrixXd) : MatrixXd :=
  {| rows := rows A; cols := cols A; coef := fun i j => coef A i j + coef B i j |}.




(** [Eigen::MatrixXd AlignedPointSet(yPoints, rotationMatrix, translation,
    scale)]. *)
Definition AlignedPointSet (yPoints rotationMatrix translation : MatrixXd)
    (scale : R) : MatrixXd :=
  let oneVec := Ones (rows yPoints) 1 in
  sum_of (product (scaled scale yPoints) (transposed rotationMatrix))
         (product oneVec (transposed translation)).




(** Sample inputs. *)
Module Inputs.

(** Two stationary points and one moving point, all at the origin. *)
Definition two_points : MatrixXd := {| rows := 2; cols := 3; coef := fun _ _ => 0 |}.
Definition one_point : MatrixXd := {| rows := 1; cols := 3; coef := fun _ _ => 0 |}.

Definition identity3 : MatrixXd :=
  {| rows := 3; cols := 3; coef := fun i j => if (i =? j)%Z then 1 else 0 |}.

Definition zero_translation : MatrixXd := {| rows := 3; cols := 1; coef := fun _ _ => 0 |}.

(** 32768 stationary points at the origin and 32768 moving points at (1, 0, 0). *)
Definition origin_cloud : MatrixXd :=
  {| rows := 32768; cols := 3; coef := fun _ _ => 0 |}.

Definition unit_x_cloud : MatrixXd :=
  {| rows := 32768; cols := 3; coef := fun _ k => if (k =? 0)%Z then 1 else 0 |}.

End Inputs.

End CPD_Shared.

(** ** The expectation step of CPD_Shared.cc over binary64

    [E_Step] once more, with [double] as binary64: the model for what
    depends on underflow and on NaN.  [exp] and [pow] are the C library's
    and are parameters of the model.  Sums run in index order from 0; the
    input this model is used at has at most one non-zero term in every sum,
    so that any other order of the additions gives the same values. *)

Module CPD_Shared_binary64.

Local Open Scope float_scope.

(** [Eigen::MatrixXd]. *)
Record MatrixXd : Type := { rows : Z; cols : Z; coef : Z -> Z -> float }.

(** [Eigen::MatrixXd::Zero(r, c)]. *)
Definition Zero (r c : Z) : MatrixXd := {| rows := r; cols := c; coef := fun _ _ => 0 |}.

(** [M(i,j) = v]. *)
Definition set_coef (M : MatrixXd) (i j : Z) (v : float) : MatrixXd :=
  {| rows := rows M; cols := cols M;
     coef := fun i' j' => if ((i' =? i) && (j' =? j))%Z then v else coef M i' j' |}.

Definition sum_upto (n : Z) (f : Z -> float) : float :=
  fold_left (fun acc k => acc + f k) (CPD_Shared.index_range n) 0.

(** [v.squaredNorm()] and [M.col(n).sum()]. *)
Definition squaredNorm (n : Z) (v : Z -> float) : float := sum_upto n (fun k => v k * v k).

Definition col_sum (M : MatrixXd) (n : Z) : float := sum_upto (rows M) (fun m => coef M m n).

(** [M_PI] of math.h: pi rounded to binary64. *)
Definition M_PI : float := 0x1.921fb54442d18p+1.

(** [(double)v] for an [int] [v]. *)
Definition double_of_int (v : Z) : float :=
  if (v <? 0)%Z then - PrimFloat.of_uint63 (Uint63.of_Z (- v))
  else PrimFloat.of_uint63 (Uint63.of_Z v).

Section Library.

(** [exp] and [pow] of the C library. *)
Variable exp : float -> float.
Variable pow : float -> float -> float.

Definition residual (xPoints yPoints rotationMatrix t : MatrixXd) (m n : Z) : Z -> float :=
  fun i =>
    coef xPoints n i
    - (sum_upto (cols rotationMatrix) (fun k => coef rotationMatrix i k * coef yPoints m k)
       + coef t i 0%Z).

Definition E_Step_expMat (xPoints yPoints rotationMatrix t : MatrixXd)
    (sigmaSquared : float) : MatrixXd :=
  let mRowsY := CPD_Shared.to_int (rows yPoints) in
  let nRowsX := CPD_Shared.to_int (rows xPoints) in
  fold_left
    (fun expMat m =>
       fold_left
         (fun expMat n =>
            let tempVector := residual xPoints yPoints rotationMatrix t m n in
            let expArg := (-1) / (2 * sigmaSquared) * squaredNorm (cols xPoints) tempVector in
            set_coef expMat m n (exp expArg))
         (CPD_Shared.index_range (CPD_Shared.size_t_of_int nRowsX)) expMat)
    (CPD_Shared.index_range (CPD_Shared.size_t_of_int mRowsY))
    (Zero (rows yPoints) (rows xPoints)).

Definition E_Step_constant (xPoints yPoints : MatrixXd) (sigmaSquared w : float) : float :=
  let mRowsY := CPD_Shared.to_int (rows yPoints) in
  let nRowsX := CPD_Shared.to_int (rows xPoints) in
  let dimensionality := CPD_Shared.to_int (cols yPoints) in
  pow (2 * M_PI * sigmaSquared) (double_of_int (CPD_Shared.int_div dimensionality 2))
  * (w / (1 - w)) * double_of_int (CPD_Shared.int_div mRowsY nRowsX).

(** [Eigen::MatrixXd E_Step(xPoints, yPoints, rotationMatrix, t,
    sigmaSquared, w, scale)]. *)
Definition E_Step (xPoints yPoints rotationMatrix t : MatrixXd)
    (sigmaSquared w scale : float) : MatrixXd :=
  let mRowsY := CPD_Shared.to_int (rows yPoints) in
  let nRowsX := CPD_Shared.to_int (rows xPoints) in
  let expMat := E_Step_expMat xPoints yPoints rotationMatrix t sigmaSquared in
  fold_left
    (fun postProb m =>
       fold_left
         (fun postProb n =>
            let numerator := coef expMat m n in
            let denominator :=
              col_sum expMat n + E_Step_constant xPoints yPoints sigmaSquared w in
            set_coef postProb m n (numerator / denominator))
         (CPD_Shared.index_range (CPD_Shared.size_t_of_int nRowsX)) postProb)
    (CPD_Shared.index_range (CPD_Shared.size_t_of_int mRowsY))
    (Zero (rows yPoints) (rows xPoints)).

End Library.

(** What binary64 leaves of [exp] far below zero: [e^v] is less than half of
    the least positive double, [2^-1074], as soon as [v < -745.14], and the
    result is [+0]. *)
Definition underflows (exp : float -> float) : Prop :=
  forall v, (v <=? -746) = true -> exp v = 0.

(** Sample inputs: one stationary point at the origin and one moving point
    at (100, 0, 0). *)
Module Inputs.

Definition origin : MatrixXd := {| rows := 1; cols := 3; coef := fun _ _ => 0 |}.

Definition far_point : MatrixXd :=
  {| rows := 1; cols := 3; coef := fun _ k => if (k =? 0)%Z then 100 else 0 |}.

Definition identity3 : MatrixXd :=
  {| rows := 3; cols := 3; coef := fun i j => if (i =? j)%Z then 1 else 0 |}.

Definition zero_translation : MatrixXd := {| rows := 3; cols := 1; coef := fun _ _ => 0 |}.

(** A stand-in for [exp] that is right where it underflows and where its
    argument is 0, and a stand-in for [std::pow] that is right at the
    exponent 1. *)
Definition exp_or_zero (v : float) : float := if v <=? -746 then 0 else 1.

Definition pow_one (b e : float) : float := b.

End Inputs.

End CPD_Shared_binary64.

(** * Properties *)

Unset Implicit Arguments.

Import AlignPoints.

(** ** binary64 facts *)

Section Binary64.

Local Open Scope float_scope.

Lemma finite_Prim2SF (v : float) :
  finite v = true ->
  (exists s, Prim2SF v = S754_zero s) \/ (exists s m e, Prim2SF v = S754_finite s m e).
Proof.
  unfold finite, is_nan, is_infinity.
  rewrite !eqb_spec, abs_spec.
  destruct (Prim2SF v) as [s | s | | s m e]; simpl; eauto.
  - destruct s; cbn; discriminate.
  - cbn; discriminate.
Qed.

Lemma finite_mul_zero (v : float) :
  finite v = true -> exists s, Prim2SF (v * 0) = S754_zero s.
Proof.
  intros H. rewrite mul_spec.
  destruct (finite_Prim2SF _ H) as [[s E] | [s [m [e E]]]]; rewrite E; cbn; eauto.
Qed.

Lemma weight_of_fixed_cells (a b c : float) :
  finite a = true -> finite b = true -> finite c = true ->
  a * 0 + b * 0 + c * 0 + 1 * 1 = 1.
Proof.
  intros Ha Hb Hc. apply Prim2SF_inj.
  destruct (finite_mul_zero _ Ha) as [sa Ea], (finite_mul_zero _ Hb) as [sb Eb],
    (finite_mul_zero _ Hc) as [sc Ec].
  rewrite !add_spec, Ea, Eb, Ec.
  destruct sa, sb, sc; vm_compute; reflexivity.
Qed.

End Binary64.

Section Binary64_nan.

Local Open Scope float_scope.

Lemma SFcompare_refl_finite (s : bool) (m : positive) (e : Z) :
  SFcompare (S754_finite s m e) (S754_finite s m e) = Some Eq.
Proof.
  unfold SFcompare. rewrite Z.compare_refl, Pos.compare_cont_refl.
  destruct s; reflexivity.
Qed.

Lemma not_finite_Prim2SF (v : float) :
  finite v = false -> Prim2SF v = S754_nan \/ exists s, Prim2SF v = S754_infinity s.
Proof.
  unfold finite, is_nan, is_infinity.
  rewrite !eqb_spec, abs_spec. unfold SFeqb.
  destruct (Prim2SF v) as [s | s | | s m e]; eauto.
  - destruct s; cbn; discriminate.
  - cbn [SFabs]. rewrite SFcompare_refl_finite. cbn. discriminate.
Qed.

Lemma not_finite_mul_zero (v : float) :
  finite v = false -> Prim2SF (v * 0) = S754_nan.
Proof.
  intros H. rewrite mul_spec.
  destruct (not_finite_Prim2SF _ H) as [E | [s E]]; rewrite E; reflexivity.
Qed.

Lemma add_nan_l (a b : float) : Prim2SF a = S754_nan -> Prim2SF (a + b) = S754_nan.
Proof. intros E. rewrite add_spec, E. reflexivity. Qed.

Lemma add_nan_r (a b : float) : Prim2SF b = S754_nan -> Prim2SF (a + b) = S754_nan.
Proof. intros E. rewrite add_spec, E. destruct (Prim2SF a); reflexivity. Qed.

Lemma nan_is_not_one (w : float) : Prim2SF w = S754_nan -> (w =? 1) = false.
Proof. intros E. rewrite eqb_spec, E. reflexivity. Qed.

Lemma weight_of_non_finite (a b c : float) :
  finite a && finite b && finite c = false ->
  (a * 0 + b * 0 + c * 0 + 1 * 1 =? 1) = false.
Proof.
  intros H. apply nan_is_not_one. apply add_nan_l.
  destruct (finite a) eqn:Ha; [| apply add_nan_l, add_nan_l, not_finite_mul_zero; exact Ha].
  destruct (finite b) eqn:Hb; [| apply add_nan_l, add_nan_r, not_finite_mul_zero; exact Hb].
  destruct (finite c) eqn:Hc; [discriminate H |].
  apply add_nan_r, not_finite_mul_zero; exact Hc.
Qed.

End Binary64_nan.

Section Binary64_nan_arith.

Local Open Scope float_scope.

Lemma Prim2SF_nan : Prim2SF nan = S754_nan.
Proof. reflexivity. Qed.

Lemma nan_of_Prim2SF (v : float) : Prim2SF v = S754_nan -> v = nan.
Proof. intros E. apply Prim2SF_inj. rewrite E. reflexivity. Qed.

Lemma nan_add (a : float) : nan + a = nan.
Proof. apply nan_of_Prim2SF, add_nan_l. reflexivity. Qed.

Lemma add_nan (a : float) : a + nan = nan.
Proof. apply nan_of_Prim2SF, add_nan_r. reflexivity. Qed.

Lemma nan_mul (a : float) : nan * a = nan.
Proof. apply nan_of_Prim2SF. rewrite mul_spec, Prim2SF_nan. reflexivity. Qed.

Lemma mul_nan (a : float) : a * nan = nan.
Proof.
  apply nan_of_Prim2SF. rewrite mul_spec, Prim2SF_nan.
  destruct (Prim2SF a); reflexivity.
Qed.

Lemma nan_sub (a : float) : nan - a = nan.
Proof. apply nan_of_Prim2SF. rewrite sub_spec, Prim2SF_nan. reflexivity. Qed.

Lemma sub_nan (a : float) : a - nan = nan.
Proof.
  apply nan_of_Prim2SF. rewrite sub_spec, Prim2SF_nan.
  destruct (Prim2SF a); reflexivity.
Qed.

Lemma weight_of_non_finite_is_nan (a b c : float) :
  finite a && finite b && finite c = false ->
  a * 0 + b * 0 + c * 0 + 1 * 1 = nan.
Proof.
  intros H. apply nan_of_Prim2SF. apply add_nan_l.
  destruct (finite a) eqn:Ha; [| apply add_nan_l, add_nan_l, not_finite_mul_zero; exact Ha].
  destruct (finite b) eqn:Hb; [| apply add_nan_l, add_nan_r, not_finite_mul_zero; exact Hb].
  destruct (finite c) eqn:Hc; [discriminate H |].
  apply add_nan_r, not_finite_mul_zero; exact Hc.
Qed.

End Binary64_nan_arith.

Section Binary64_zero.

Local Open Scope float_scope.

Lemma eqb_zero_Prim2SF (v : float) :
  (v =? 0) = true -> exists s, Prim2SF v = S754_zero s.
Proof.
  rewrite eqb_spec. unfold SFeqb.
  destruct (Prim2SF v) as [s | [|] | | [|] m e]; cbn; try discriminate; eauto.
Qed.

Lemma finite_mul_signed_zero (v m : float) :
  finite v = true -> (m =? 0) = true -> exists s, Prim2SF (v * m) = S754_zero s.
Proof.
  intros Hv Hm. rewrite mul_spec.
  destruct (eqb_zero_Prim2SF _ Hm) as [sm Em]. rewrite Em.
  destruct (finite_Prim2SF _ Hv) as [[s E] | [s [mv [e E]]]]; rewrite E; cbn; eauto.
Qed.

Lemma length_of_zero_vector (a b c : float) (sa sb sc : bool) :
  Prim2SF a = S754_zero sa -> Prim2SF b = S754_zero sb -> Prim2SF c = S754_zero sc ->
  Prim2SF (PrimFloat.sqrt (a * a + b * b + c * c)) = S754_zero false.
Proof.
  intros Ea Eb Ec.
  rewrite sqrt_spec, !add_spec, !mul_spec, Ea, Eb, Ec.
  destruct sa, sb, sc; reflexivity.
Qed.

Lemma zero_div_zero (a tot : float) (sa : bool) :
  Prim2SF a = S754_zero sa -> Prim2SF tot = S754_zero false -> a / tot = nan.
Proof.
  intros Ea Et. apply Prim2SF_inj. rewrite div_spec, Ea, Et. reflexivity.
Qed.

Lemma unit_of_zero_scaled (e : vec3) (m : float) :
  finite_point e = true -> (m =? 0) = true ->
  unit (vec3_scale e m) = Vec3 nan nan nan.
Proof.
  intros He Hm.
  unfold finite_point in He. apply andb_true_iff in He as [He Hz].
  apply andb_true_iff in He as [Hx Hy].
  destruct (finite_mul_signed_zero _ _ Hx Hm) as [sx Ex],
    (finite_mul_signed_zero _ _ Hy Hm) as [sy Ey],
    (finite_mul_signed_zero _ _ Hz Hm) as [sz Ez].
  unfold unit, vec3_scale; cbn [x y z].
  pose proof (length_of_zero_vector _ _ _ _ _ _ Ex Ey Ez) as Et.
  rewrite (zero_div_zero _ _ _ Ex Et), (zero_div_zero _ _ _ Ey Et), (zero_div_zero _ _ _ Ez Et).
  reflexivity.
Qed.

End Binary64_zero.

(** ** The affine transform *)

Lemma isininc_iff (a v b : Z) : isininc a v b = true <-> (a <= v <= b)%Z.
Proof. unfold isininc. rewrite andb_true_iff, !Z.leb_le. tauto. Qed.

Lemma coeff_assign_guard (T : AffineTransform) (i j : Z) (v : float) :
  coeff_assign T i j v = Throw fixed_coefficients <-> ~ ((0 <= i <= 3)%Z /\ (0 <= j <= 2)%Z).
Proof.
  unfold coeff_assign.
  destruct (isininc 0 i 3) eqn:Hi; destruct (isininc 0 j 2) eqn:Hj; simpl;
    rewrite <- ?isininc_iff, ?Hi, ?Hj; split; intros H; try reflexivity;
    try discriminate; try (intros [? ?]; discriminate).
  exfalso; apply H; split; reflexivity.
Qed.

Lemma coeff_assign_fixed_cells (T T' : AffineTransform) (i j : Z) (v : float) :
  coeff_assign T i j v = Return T' -> fixed_cells T' = fixed_cells T.
Proof.
  unfold coeff_assign.
  destruct (isininc 0 i 3) eqn:Hi; destruct (isininc 0 j 2) eqn:Hj; simpl; try discriminate.
  intros H; injection H as <-.
  apply isininc_iff in Hi, Hj.
  assert (Ei : (i = 0 \/ i = 1 \/ i = 2 \/ i = 3)%Z) by lia.
  assert (Ej : (j = 0 \/ j = 1 \/ j = 2)%Z) by lia.
  destruct T as [[[a0 a1 a2 a3] [b0 b1 b2 b3] [c0 c1 c2 c3] [d0 d1 d2 d3]]].
  destruct Ei as [-> | [-> | [-> | ->]]]; destruct Ej as [-> | [-> | ->]]; reflexivity.
Qed.

Lemma reachable_fixed_cells (T : AffineTransform) :
  reachable T -> fixed_cells T = [0; 0; 0; 1]%float.
Proof.
  induction 1 as [| T T' i j v _ IH Hw].
  - reflexivity.
  - rewrite (coeff_assign_fixed_cells T T' i j v Hw). exact IH.
Qed.

Lemma apply_to_on_reachable (T : AffineTransform) (p : vec3) :
  reachable T ->
  apply_to T p =
    if finite_point p then Return (Vec3 (apply_x T p) (apply_y T p) (apply_z T p))
    else Throw not_affine.
Proof.
  intros HT.
  pose proof (reachable_fixed_cells T HT) as Hf.
  unfold fixed_cells, subscript in Hf. injection Hf as H0 H1 H2 H3.
  unfold apply_to, apply_w, subscript. rewrite H0, H1, H2, H3.
  destruct (finite_point p) eqn:Hp; unfold finite_point in Hp.
  - apply andb_true_iff in Hp as [Hp Hz]. apply andb_true_iff in Hp as [Hx Hy].
    rewrite (weight_of_fixed_cells (x p) (y p) (z p) Hx Hy Hz). reflexivity.
  - rewrite (weight_of_non_finite (x p) (y p) (z p) Hp). reflexivity.
Qed.

(** C10: a transform built from the constructor by writes through [coeff]
    that did not throw keeps its fixed cells at (0, 0, 0, 1): [coeff] throws
    exactly on the indices outside [0,3] x [0,2], so on every write to a cell
    with second index 3; hence for every finite point the homogeneous weight
    computed by [apply_to] is exactly 1 and [apply_to] returns the point
    instead of throwing. *)
Theorem reachable_transform_weight_one (T : AffineTransform) (p : vec3) :
  reachable T -> finite_point p = true ->
  (forall i j v,
      coeff_assign T i j v = Throw fixed_coefficients <-> ~ ((0 <= i <= 3)%Z /\ (0 <= j <= 2)%Z)) /\
  (forall i v, coeff_assign T i 3 v = Throw fixed_coefficients) /\
  fixed_cells T = [0; 0; 0; 1]%float /\
  apply_w T p = 1%float /\
  apply_to T p = Return (Vec3 (apply_x T p) (apply_y T p) (apply_z T p)).
Proof.
  intros HT Hp.
  assert (Hw : apply_w T p = 1%float).
  { pose proof (reachable_fixed_cells T HT) as Hf.
    unfold fixed_cells, subscript in Hf. injection Hf as H0 H1 H2 H3.
    unfold apply_w, subscript. rewrite H0, H1, H2, H3.
    unfold finite_point in Hp. apply andb_true_iff in Hp as [Hp Hz].
    apply andb_true_iff in Hp as [Hx Hy].
    apply (weight_of_fixed_cells (x p) (y p) (z p)); assumption. }
  split; [intros i j v; apply coeff_assign_guard |].
  split; [intros i v; apply coeff_assign_guard; lia |].
  split; [apply reachable_fixed_cells; exact HT |].
  split; [exact Hw |].
  unfold apply_to. rewrite Hw. reflexivity.
Qed.

Lemma reachable_transform_weight_one_witness :
  reachable Samples.shifted /\ finite_point (Vec3 1 2 3) = true /\
  apply_to Samples.shifted (Vec3 1 2 3) = Return (Vec3 6 2 3).
Proof.
  assert (HT : reachable Samples.shifted).
  { apply (@reach_assign identity Samples.shifted 3 0 5%float reach_identity). reflexivity. }
  assert (Hp : finite_point (Vec3 1 2 3) = true) by reflexivity.
  split; [exact HT |]. split; [exact Hp |].
  exact (proj2 (proj2 (proj2 (proj2
    (reachable_transform_weight_one Samples.shifted (Vec3 1 2 3) HT Hp))))).
Defined.

(** C9: every transform the program can hold is the constructor's followed
    by writes through [coeff] ([t] is private).  On each of them [apply_to]
    computes the four sums of T * [p; 1], the last row being (0, 0, 0, 1);
    it throws "not Affine" if and only if the homogeneous weight differs
    from 1 by more than 1e-12, and returns (x', y', z') when the weight is
    within 1e-12 of 1.  The weight is in fact exactly 1 or NaN, so the exact
    comparison of the source and the tolerance decide alike. *)
Theorem apply_to_weight_check (T : AffineTransform) (p : vec3) :
  reachable T ->
  (apply_to T p = Throw not_affine <-> differs_from_one (apply_w T p) = true) /\
  (within_tolerance (apply_w T p) = true ->
   apply_to T p = Return (Vec3 (apply_x T p) (apply_y T p) (apply_z T p))) /\
  (apply_x T p = x p * linear_block T 0 0 + y p * linear_block T 0 1
                 + z p * linear_block T 0 2 + 1 * translation T 0)%float /\
  (apply_y T p = x p * linear_block T 1 0 + y p * linear_block T 1 1
                 + z p * linear_block T 1 2 + 1 * translation T 1)%float /\
  (apply_z T p = x p * linear_block T 2 0 + y p * linear_block T 2 1
                 + z p * linear_block T 2 2 + 1 * translation T 2)%float /\
  (apply_w T p = x p * 0 + y p * 0 + z p * 0 + 1 * 1)%float /\
  (apply_w T p = 1%float \/ apply_w T p = nan).
Proof.
  intros HT.
  assert (Hw : (apply_w T p = x p * 0 + y p * 0 + z p * 0 + 1 * 1)%float).
  { pose proof (reachable_fixed_cells T HT) as Hf.
    unfold fixed_cells, subscript in Hf. injection Hf as H0 H1 H2 H3.
    unfold apply_w, subscript. rewrite H0, H1, H2, H3. reflexivity. }
  assert (Hv : if finite_point p then apply_w T p = 1%float else apply_w T p = nan).
  { rewrite Hw. destruct (finite_point p) eqn:Hp; unfold finite_point in Hp.
    - apply andb_true_iff in Hp as [Hp Hz]. apply andb_true_iff in Hp as [Hx Hy].
      apply weight_of_fixed_cells; assumption.
    - apply weight_of_non_finite_is_nan. exact Hp. }
  assert (D1 : differs_from_one 1 = false) by reflexivity.
  assert (Dn : differs_from_one nan = true) by reflexivity.
  assert (W1 : within_tolerance 1 = true) by reflexivity.
  assert (Wn : within_tolerance nan = false) by reflexivity.
  rewrite (apply_to_on_reachable T p HT).
  destruct (finite_point p).
  - split; [rewrite Hv, D1; split; intros H; discriminate H |].
    split; [intros _; reflexivity |].
    split; [reflexivity |]. split; [reflexivity |]. split; [reflexivity |].
    split; [exact Hw | left; exact Hv].
  - split; [rewrite Hv, Dn; split; intros _; reflexivity |].
    split; [rewrite Hv, Wn; intros H; discriminate H |].
    split; [reflexivity |]. split; [reflexivity |]. split; [reflexivity |].
    split; [exact Hw | right; exact Hv].
Qed.

Lemma apply_to_weight_check_witness :
  reachable Samples.shifted /\
  (differs_from_one (apply_w Samples.shifted (Vec3 nan 0 0)) = true /\
   apply_to Samples.shifted (Vec3 nan 0 0) = Throw not_affine) /\
  (within_tolerance (apply_w Samples.shifted (Vec3 1 2 3)) = true /\
   apply_to Samples.shifted (Vec3 1 2 3) = Return (Vec3 6 2 3)).
Proof.
  assert (HT : reachable Samples.shifted).
  { apply (@reach_assign identity Samples.shifted 3 0 5%float reach_identity). reflexivity. }
  assert (Hd : differs_from_one (apply_w Samples.shifted (Vec3 nan 0 0)) = true)
    by reflexivity.
  assert (Hn : within_tolerance (apply_w Samples.shifted (Vec3 1 2 3)) = true)
    by reflexivity.
  split; [exact HT |]. split; split.
  - exact Hd.
  - exact (proj2 (proj1 (apply_to_weight_check Samples.shifted (Vec3 nan 0 0) HT)) Hd).
  - exact Hn.
  - exact (proj1 (proj2 (apply_to_weight_check Samples.shifted (Vec3 1 2 3) HT)) Hn).
Defined.

(** ** The centre-of-mass aligner *)

Section COM.

Variable attr : Type.
Context {RS : Running_Sum_ops}.

Lemma est_COM_loop_sums (pts : list (vec3 * attr)) (sx sy sz : Running_Sum) :
  fold_left
    (fun acc p =>
       let '(COM_sx, COM_sy, COM_sz) := acc in
       (Digest COM_sx (x (fst p)), Digest COM_sy (y (fst p)), Digest COM_sz (z (fst p))))
    pts (sx, sy, sz)
  = (fold_left Digest (map (fun p => x (fst p)) pts) sx,
     fold_left Digest (map (fun p => y (fst p)) pts) sy,
     fold_left Digest (map (fun p => z (fst p)) pts) sz).
Proof.
  revert sx sy sz.
  induction pts as [| p pts IH]; intros sx sy sz; simpl.
  - reflexivity.
  - apply IH.
Qed.

Lemma est_COM_is_mean (pc : Point_Cloud attr) : est_COM pc = mean pc.
Proof.
  unfold est_COM, est_COM_loop, mean, running_sum.
  rewrite est_COM_loop_sums. reflexivity.
Qed.

(** C4: the COM aligner returns the transform whose linear block is the
    identity, whose translation cells hold mean(X) - mean(Y) for the
    stationary X and the moving Y, and whose fixed cells are untouched; each
    mean is the running sum of the coordinates in input order divided by the
    point count.  (It holds for every pair of clouds, the non-empty ones in
    particular.) *)
Theorem AlignViaCOM_translation (moving stationary : Point_Cloud attr) :
  AlignViaCOM moving stationary =
    Return (Some {| t := Array4 (Array4 1 0 0 0) (Array4 0 1 0 0) (Array4 0 0 1 0)
                          (Array4 (x (mean stationary) - x (mean moving))
                                  (y (mean stationary) - y (mean moving))
                                  (z (mean stationary) - z (mean moving)) 1) |}%float) /\
  est_COM stationary = mean stationary /\
  est_COM moving = mean moving.
Proof.
  unfold AlignViaCOM. rewrite !est_COM_is_mean.
  repeat split; reflexivity.
Qed.

End COM.

(** C2, as stated, fails: on two empty clouds the COM aligner returns a
    transform; its translation cells are NaN, the quotient 0/0 of the empty
    running sum by the point count. *)
Lemma AlignViaCOM_empty_returns :
  AlignViaCOM (Samples.cloud []) (Samples.cloud []) =
    Return (Some {| t := Array4 (Array4 1 0 0 0) (Array4 0 1 0 0) (Array4 0 0 1 0)
                          (Array4 nan nan nan 1) |}%float).
Proof. vm_compute. reflexivity. Qed.

(** ** Empty clouds *)

Section Empty_cloud.

Local Open Scope float_scope.

Variable attr : Type.
Context {RS : Running_Sum_ops}.

Hypothesis empty_sum : (Current_Sum Running_Sum_new =? 0) = true.

Lemma est_COM_empty (pc : Point_Cloud attr) :
  points pc = [] -> est_COM pc = Vec3 nan nan nan.
Proof.
  intros E. unfold est_COM, est_COM_loop. rewrite E. cbn [fold_left List.length].
  destruct (eqb_zero_Prim2SF _ empty_sum) as [s Es].
  assert (E0 : Prim2SF (double_of_size 0) = S754_zero false) by reflexivity.
  unfold vec3_div; cbn [x y z].
  rewrite (zero_div_zero _ _ _ Es E0). reflexivity.
Qed.

Lemma AlignViaCOM_empty (moving stationary : Point_Cloud attr) :
  points moving = [] \/ points stationary = [] ->
  AlignViaCOM moving stationary =
    Return (Some {| t := Array4 (Array4 1 0 0 0) (Array4 0 1 0 0) (Array4 0 0 1 0)
                          (Array4 nan nan nan 1) |}).
Proof.
  intros [E | E]; unfold AlignViaCOM; rewrite (est_COM_empty _ E);
    unfold vec3_sub; cbn [x y z]; rewrite ?sub_nan, ?nan_sub; reflexivity.
Qed.

Lemma AlignViaPCA_empty (pow : float -> float -> float)
    (eigenvectors : Matrix3d -> Matrix3d) (moving stationary : Point_Cloud attr)
    (T : AffineTransform) :
  points moving = [] \/ points stationary = [] ->
  AlignViaPCA pow eigenvectors moving stationary = Return (Some T) ->
  translation T 0 = nan /\ translation T 1 = nan /\ translation T 2 = nan /\
  fixed_cells T = [0; 0; 0; 1].
Proof.
  intros E H. unfold AlignViaPCA in H. cbv zeta in H.
  cbn [coeff_assign isininc Z.leb Z.compare negb orb andb bind] in H.
  injection H as <-.
  unfold translation, fixed_cells, mat_vec.
  cbn [t subscript assign at0 at1 at2 at3 identity].
  destruct E as [E | E]; rewrite (est_COM_empty _ E); cbn [x y z];
    rewrite ?mul_nan, ?nan_add, ?add_nan, ?sub_nan, ?nan_sub; repeat split.
Qed.

End Empty_cloud.

(** C2, amended: the COM and PCA aligners have no check for an empty cloud
    and no failure for it.  When the moving or the stationary cloud is
    empty, whatever the other one holds, the COM aligner returns a transform:
    the identity linear block, the fixed cells, and the three translation
    cells NaN, the centre of mass of an empty cloud being the quotient 0/0 of
    the empty running sum by the point count.  The PCA aligner computes the
    same centres of mass first: whatever transform it returns on such clouds
    (what Eigen does with a matrix of no rows is not in the sources) has NaN
    translation cells as well. *)
Theorem aligners_on_an_empty_cloud (attr : Type) (RS : Running_Sum_ops)
    (pow : float -> float -> float) (eigenvectors : Matrix3d -> Matrix3d)
    (moving stationary : Point_Cloud attr) :
  (Current_Sum Running_Sum_new =? 0)%float = true ->
  points moving = [] \/ points stationary = [] ->
  AlignViaCOM moving stationary =
    Return (Some {| t := Array4 (Array4 1 0 0 0) (Array4 0 1 0 0) (Array4 0 0 1 0)
                          (Array4 nan nan nan 1) |}%float) /\
  (forall T, AlignViaPCA pow eigenvectors moving stationary = Return (Some T) ->
     translation T 0 = nan /\ translation T 1 = nan /\ translation T 2 = nan /\
     fixed_cells T = [0; 0; 0; 1]%float).
Proof.
  intros H0 E. split.
  - apply AlignViaCOM_empty; assumption.
  - intros T HT. apply (AlignViaPCA_empty attr H0 pow eigenvectors moving stationary T E HT).
Qed.

Lemma aligners_on_an_empty_cloud_witness :
  (@Current_Sum plain_sum Running_Sum_new =? 0)%float = true /\
  (points (Samples.cloud []) = [] \/ points Samples.tetrahedron = []) /\
  AlignViaCOM (Samples.cloud []) Samples.tetrahedron =
    Return (Some {| t := Array4 (Array4 1 0 0 0) (Array4 0 1 0 0) (Array4 0 0 1 0)
                          (Array4 nan nan nan 1) |}%float).
Proof.
  assert (H0 : (@Current_Sum plain_sum Running_Sum_new =? 0)%float = true) by reflexivity.
  assert (E : points (Samples.cloud []) = [] \/ points Samples.tetrahedron = [])
    by (left; reflexivity).
  split; [exact H0 |]. split; [exact E |].
  exact (proj1 (aligners_on_an_empty_cloud Datatypes.unit plain_sum Samples.cube
                  Samples.coordinate_axes (Samples.cloud []) Samples.tetrahedron H0 E)).
Defined.

(** ** The principal-component aligner *)

Lemma reorient_pcomps_axis (attr : Type) (RS : Running_Sum_ops)
    (pow : float -> float -> float) (k : Z) (COM : vec3) (comps : pcomps)
    (pc : Point_Cloud attr) :
  axis k (reorient_pcomps pow COM comps pc)
  = unit (vec3_scale (axis k comps) (third_moment pow k COM comps pc)).
Proof.
  unfold reorient_pcomps, third_moment, axis.
  destruct (third_moments pow COM comps (points pc)) as [[rs1 rs2] rs3].
  destruct k as [| [| |] |]; reflexivity.
Qed.

(** C3 at its second half: whenever the third moment along a (finite)
    component is exactly zero, [reorient_pcomps] does not keep the component:
    it scales it by the zero moment and normalises the zero vector, and the
    output axis is (NaN, NaN, NaN). *)
Theorem reorient_pcomps_zero_moment (attr : Type) (RS : Running_Sum_ops)
    (pow : float -> float -> float) (k : Z) (COM : vec3) (comps : pcomps)
    (pc : Point_Cloud attr) :
  finite_point (axis k comps) = true ->
  (third_moment pow k COM comps pc =? 0)%float = true ->
  axis k (reorient_pcomps pow COM comps pc) = Vec3 nan nan nan /\
  axis k (reorient_pcomps pow COM comps pc) <> axis k comps.
Proof.
  intros He Hm.
  rewrite reorient_pcomps_axis, (unit_of_zero_scaled _ _ He Hm).
  split; [reflexivity |].
  intros E. rewrite <- E in He. vm_compute in He. discriminate He.
Qed.

Lemma reorient_pcomps_zero_moment_witness :
  finite_point (axis 0 Samples.axes) = true /\
  (third_moment Samples.cube 0 (est_COM Samples.octahedron) Samples.axes Samples.octahedron
   =? 0)%float = true /\
  est_COM Samples.octahedron = Vec3 0 0 0 /\
  reorient_pcomps Samples.cube (est_COM Samples.octahedron) Samples.axes Samples.octahedron
  = {| pc1 := Vec3 nan nan nan; pc2 := Vec3 nan nan nan; pc3 := Vec3 nan nan nan |} /\
  axis 0 (reorient_pcomps Samples.cube (est_COM Samples.octahedron) Samples.axes
            Samples.octahedron) <> Vec3 1 0 0.
Proof.
  assert (He : finite_point (axis 0 Samples.axes) = true) by reflexivity.
  assert (Hm : (third_moment Samples.cube 0 (est_COM Samples.octahedron) Samples.axes
                  Samples.octahedron =? 0)%float = true) by (vm_compute; reflexivity).
  split; [exact He |]. split; [exact Hm |].
  split; [vm_compute; reflexivity |]. split; [vm_compute; reflexivity |].
  exact (proj2 (reorient_pcomps_zero_moment Datatypes.unit plain_sum Samples.cube 0
                  (est_COM Samples.octahedron) Samples.axes Samples.octahedron He Hm)).
Defined.

(** The same input at the level of the aligner: a cloud whose principal
    components are the coordinate axes and whose third moments vanish is
    aligned with itself by a transform made of NaN. *)
Lemma AlignViaPCA_symmetric_cloud :
  est_PCA Samples.coordinate_axes Samples.octahedron = Samples.axes /\
  AlignViaPCA Samples.cube Samples.coordinate_axes Samples.octahedron Samples.octahedron
  = Return (Some {| t := Array4 (Array4 nan nan nan 0) (Array4 nan nan nan 0)
                            (Array4 nan nan nan 0) (Array4 nan nan nan 1) |}%float).
Proof. split; vm_compute; reflexivity. Qed.

(** ** A vanishing third moment, at the level of the aligner *)

Section Zero_moment.

Local Open Scope float_scope.

Variable attr : Type.
Context {RS : Running_Sum_ops}.
Variable pow : float -> float -> float.
Variable eigenvectors : Matrix3d -> Matrix3d.

Lemma reoriented_axis_nan (k : Z) (pc : Point_Cloud attr) :
  finite_point (axis k (est_PCA eigenvectors pc)) = true ->
  (third_moment pow k (est_COM pc) (est_PCA eigenvectors pc) pc =? 0) = true ->
  axis k (reorient_pcomps pow (est_COM pc) (est_PCA eigenvectors pc) pc) = Vec3 nan nan nan.
Proof.
  intros He Hm. rewrite reorient_pcomps_axis. apply unit_of_zero_scaled; assumption.
Qed.

Lemma AlignViaPCA_nan_axis (k : Z) (moving stationary pc : Point_Cloud attr) :
  pc = moving \/ pc = stationary ->
  axis k (reorient_pcomps pow (est_COM pc) (est_PCA eigenvectors pc) pc) = Vec3 nan nan nan ->
  exists T,
    AlignViaPCA pow eigenvectors moving stationary = Return (Some T) /\
    Forall (fun r => Forall (fun c => linear_block T r c = nan) [0; 1; 2]%Z) [0; 1; 2]%Z /\
    Forall (fun r => translation T r = nan) [0; 1; 2]%Z.
Proof.
  intros Hpc Hn.
  unfold AlignViaPCA. cbv zeta.
  cbn [coeff_assign isininc Z.leb Z.compare negb orb andb bind].
  eexists. split; [reflexivity |].
  unfold linear_block, translation, mat_mul, mat_vec, transpose, of_columns.
  cbn [t subscript assign at0 at1 at2 at3 identity].
  destruct Hpc as [-> | ->];
    destruct k as [| [q | q |] | q]; cbn [axis] in Hn; rewrite Hn;
    cbn [component x y z];
    repeat first [rewrite mul_nan | rewrite nan_mul | rewrite nan_add | rewrite add_nan
                 | rewrite sub_nan | rewrite nan_sub];
    repeat constructor.
Qed.

End Zero_moment.

(** C5, as stated, fails where a third moment vanishes: whenever the third
    moment of the moving or of the stationary cloud along one of its (finite)
    principal components is exactly zero, the transform the PCA aligner
    returns has NaN in all nine cells of its linear block and in its three
    translation cells.  Its linear block is then not a product S * M^T of
    matrices of unit axes. *)
Theorem AlignViaPCA_zero_moment (attr : Type) (RS : Running_Sum_ops)
    (pow : float -> float -> float) (eigenvectors : Matrix3d -> Matrix3d) (k : Z)
    (moving stationary pc : Point_Cloud attr) :
  pc = moving \/ pc = stationary ->
  finite_point (axis k (est_PCA eigenvectors pc)) = true ->
  (third_moment pow k (est_COM pc) (est_PCA eigenvectors pc) pc =? 0)%float = true ->
  exists T,
    AlignViaPCA pow eigenvectors moving stationary = Return (Some T) /\
    Forall (fun r => Forall (fun c => linear_block T r c = nan) [0; 1; 2]%Z) [0; 1; 2]%Z /\
    Forall (fun r => translation T r = nan) [0; 1; 2]%Z.
Proof.
  intros Hpc He Hm.
  apply (AlignViaPCA_nan_axis attr pow eigenvectors k moving stationary pc Hpc).
  apply reoriented_axis_nan; assumption.
Qed.

Lemma AlignViaPCA_zero_moment_witness :
  finite_point (axis 0 (est_PCA Samples.coordinate_axes Samples.octahedron)) = true /\
  (third_moment Samples.cube 0 (est_COM Samples.octahedron)
     (est_PCA Samples.coordinate_axes Samples.octahedron) Samples.octahedron =? 0)%float
  = true /\
  exists T,
    AlignViaPCA Samples.cube Samples.coordinate_axes Samples.octahedron Samples.octahedron
    = Return (Some T) /\
    Forall (fun r => Forall (fun c => linear_block T r c = nan) [0; 1; 2]%Z) [0; 1; 2]%Z /\
    Forall (fun r => translation T r = nan) [0; 1; 2]%Z.
Proof.
  assert (He : finite_point (axis 0 (est_PCA Samples.coordinate_axes Samples.octahedron))
               = true) by (vm_compute; reflexivity).
  assert (Hm : (third_moment Samples.cube 0 (est_COM Samples.octahedron)
                  (est_PCA Samples.coordinate_axes Samples.octahedron) Samples.octahedron
                =? 0)%float = true) by (vm_compute; reflexivity).
  split; [exact He |]. split; [exact Hm |].
  exact (AlignViaPCA_zero_moment Datatypes.unit plain_sum Samples.cube Samples.coordinate_axes
           0 Samples.octahedron Samples.octahedron Samples.octahedron
           (or_introl eq_refl) He Hm).
Defined.

(** ** The Method argument and the dispatch *)

Lemma icase_eqb_lower (a : ascii) (c : ascii) :
  to_lower c = c -> icase_eqb a c = Ascii.eqb (to_lower a) c.
Proof. intros E. unfold icase_eqb. rewrite E. reflexivity. Qed.

Ltac lower_letters :=
  repeat match goal with
         | |- context [icase_eqb ?a ?c] =>
             rewrite (icase_eqb_lower a c) by reflexivity
         end;
  repeat match goal with
         | |- context [Ascii.eqb ?u ?v] => destruct (Ascii.eqb_spec u v); subst
         end;
  cbn [andb orb].

Ltac settle_membership :=
  split;
  [ intros H; try discriminate H; try congruence;
    repeat match goal with E : to_lower _ = _ |- _ => rewrite E end;
    cbn; auto 6
  | intros H; cbn in H;
    repeat match goal with
           | H : _ \/ _ |- _ => destruct H as [H | H]
           | H : False |- _ => destruct H
           end;
    try reflexivity; try discriminate H; try congruence ].

Lemma match_com (l : list ascii) :
  match_atoms regex_com l = true <->
  In (string_of_list_ascii (map to_lower l)) ["c"; "co"; "cm"; "com"]%string.
Proof.
  change regex_com with [One "c"; Maybe "o"; Maybe "m"]%char.
  destruct l as [| a [| b [| c [| d l]]]]; cbn [match_atoms map string_of_list_ascii];
    lower_letters; settle_membership.
Qed.

Lemma match_pca (l : list ascii) :
  match_atoms regex_pca l = true <->
  In (string_of_list_ascii (map to_lower l)) ["p"; "pc"; "pa"; "pca"]%string.
Proof.
  change regex_pca with [One "p"; Maybe "c"; Maybe "a"]%char.
  destruct l as [| a [| b [| c [| d l]]]]; cbn [match_atoms map string_of_list_ascii];
    lower_letters; settle_membership.
Qed.

(** C8, as stated, fails: "cpd" matches neither pattern, and with a moving
    cloud to align the operator throws "Method not understood". *)
Lemma cpd_is_not_a_method :
  regex_match "cpd" regex_com = false /\
  regex_match "cpd" regex_pca = false /\
  AlignPoints Samples.cube Samples.coordinate_axes
    [Samples.tetrahedron_shifted; Samples.tetrahedron] [1%nat] [0%nat] "cpd"
  = Throw method_not_understood.
Proof. repeat split; vm_compute; reflexivity. Qed.

(** C8, amended: the operator recognises two methods.  Case-insensitively,
    the strings c, co, cm and com select the COM aligner and the strings p,
    pc, pa and pca the PCA aligner; with one reference cloud selected, the
    first moving cloud is aligned by the selected aligner, and for any other
    method string, cpd included, the operator throws "Method not
    understood".  The method is looked at per moving cloud: with no moving
    cloud selected the container is returned whatever the method string. *)
Theorem Method_dispatch (attr : Type) (RS : Running_Sum_ops)
    (pow : float -> float -> float) (eigenvectors : Matrix3d -> Matrix3d) (MethodStr : string)
    (point_data : list (Point_Cloud attr)) (ref pcp_it : nat) (rest : list nat) :
  (regex_match MethodStr regex_com = true <->
   In (lowercase MethodStr) ["c"; "co"; "cm"; "com"]%string) /\
  (regex_match MethodStr regex_pca = true <->
   In (lowercase MethodStr) ["p"; "pc"; "pa"; "pca"]%string) /\
  AlignPoints pow eigenvectors point_data [ref] (pcp_it :: rest) MethodStr =
    (if existsb (String.eqb (lowercase MethodStr)) ["c"; "co"; "cm"; "com"]%string then
       bind (align_with (@AlignViaCOM attr RS) ref point_data pcp_it)
            (fun point_data' => align_all pow eigenvectors MethodStr ref point_data' rest)
     else if existsb (String.eqb (lowercase MethodStr)) ["p"; "pc"; "pa"; "pca"]%string then
       bind (align_with (AlignViaPCA pow eigenvectors) ref point_data pcp_it)
            (fun point_data' => align_all pow eigenvectors MethodStr ref point_data' rest)
     else Throw method_not_understood) /\
  AlignPoints pow eigenvectors point_data [ref] [] MethodStr = Return point_data.
Proof.
  assert (Hcom : regex_match MethodStr regex_com
                 = existsb (String.eqb (lowercase MethodStr)) ["c"; "co"; "cm"; "com"]%string).
  { apply eq_true_iff_eq. rewrite existsb_exists. unfold regex_match. rewrite match_com.
    fold (lowercase MethodStr). split.
    - intros H. exists (lowercase MethodStr). split; [exact H | apply String.eqb_refl].
    - intros [u [Hu E]]. apply String.eqb_eq in E. subst u. exact Hu. }
  assert (Hpca : regex_match MethodStr regex_pca
                 = existsb (String.eqb (lowercase MethodStr)) ["p"; "pc"; "pa"; "pca"]%string).
  { apply eq_true_iff_eq. rewrite existsb_exists. unfold regex_match. rewrite match_pca.
    fold (lowercase MethodStr). split.
    - intros H. exists (lowercase MethodStr). split; [exact H | apply String.eqb_refl].
    - intros [u [Hu E]]. apply String.eqb_eq in E. subst u. exact Hu. }
  split; [unfold regex_match; rewrite match_com; reflexivity |].
  split; [unfold regex_match; rewrite match_pca; reflexivity |].
  split; [| reflexivity].
  unfold AlignPoints. cbn [align_all]. unfold align_one.
  rewrite <- Hcom, <- Hpca.
  destruct (regex_match MethodStr regex_com); [reflexivity |].
  destruct (regex_match MethodStr regex_pca); reflexivity.
Qed.

(** ** The expectation step over binary64 *)

Section Underflow.

Import CPD_Shared_binary64.

Local Open Scope float_scope.

Lemma zero_over_vanishing (p : float) : 0 / (0 + 0 + p * 0 * 1) = nan.
Proof.
  apply Prim2SF_inj.
  rewrite div_spec, !add_spec, !mul_spec.
  destruct (Prim2SF p) as [[|] | [|] | | [|] m e]; reflexivity.
Qed.

(** C7, as stated, fails in binary64: with one stationary point at the
    origin, one moving point at (100, 0, 0), the identity rotation, no
    translation, sigma-squared 1 and w = 0, the argument of [exp] is -5000,
    the kernel underflows to 0, the added constant is 0 (or NaN, should
    [pow] not return a number) and the one cell of the posterior is the
    quotient 0/0: it is NaN, neither at least 0 nor at most 1, and so is the
    sum of its column.  This holds for every [exp] that underflows as the
    binary64 one does, and for every [pow] and [scale]. *)
Theorem E_Step_underflows_to_NaN (exp : float -> float) (pow : float -> float -> float)
    (scale : float) :
  underflows exp ->
  let P := E_Step exp pow Inputs.origin Inputs.far_point Inputs.identity3
             Inputs.zero_translation 1 0 scale in
  rows P = 1%Z /\ cols P = 1%Z /\
  coef P 0 0 = nan /\
  (0 <=? coef P 0 0) = false /\ (coef P 0 0 <=? 1) = false /\
  (col_sum P 0 <=? 1) = false.
Proof.
  intros Hexp P.
  assert (Hc : coef P 0 0 = nan).
  { subst P. vm_compute.
    rewrite (Hexp (-5000)) by reflexivity.
    apply zero_over_vanishing. }
  assert (Hs : col_sum P 0 = 0 + coef P 0 0) by reflexivity.
  split; [reflexivity |]. split; [reflexivity |]. split; [exact Hc |].
  rewrite Hs, Hc. repeat split.
Qed.

Lemma E_Step_underflows_to_NaN_witness :
  underflows Inputs.exp_or_zero /\
  coef (E_Step Inputs.exp_or_zero Inputs.pow_one Inputs.origin Inputs.far_point
          Inputs.identity3 Inputs.zero_translation 1 0 1) 0 0 = nan.
Proof.
  assert (H : underflows Inputs.exp_or_zero).
  { intros v Hv. unfold Inputs.exp_or_zero. rewrite Hv. reflexivity. }
  split; [exact H |].
  exact (proj1 (proj2 (proj2
    (E_Step_underflows_to_NaN Inputs.exp_or_zero Inputs.pow_one 1 H)))).
Defined.

End Underflow.

(** ** Sums and loops of CPD_Shared.cc *)

Import CPD_Shared.

Section Loops.

Local Open Scope R_scope.

Lemma index_range_In (n i : Z) : In i (index_range n) <-> (0 <= i < n)%Z.
Proof.
  unfold index_range. rewrite in_map_iff. split.
  - intros [k [<- Hk]]. apply in_seq in Hk. lia.
  - intros H. exists (Z.to_nat i). split; [lia |]. apply in_seq. lia.
Qed.

Lemma index_range_existsb (n i : Z) :
  existsb (Z.eqb i) (index_range n) = ((0 <=? i) && (i <? n))%Z.
Proof.
  apply eq_true_iff_eq. rewrite existsb_exists, andb_true_iff, Z.leb_le, Z.ltb_lt. split.
  - intros [k [Hk E]]. apply Z.eqb_eq in E. subst k. apply index_range_In. exact Hk.
  - intros H. exists i. split; [apply index_range_In; lia | apply Z.eqb_refl].
Qed.

Lemma index_range_length (n : Z) : List.length (index_range n) = Z.to_nat n.
Proof. unfold index_range. rewrite length_map, length_seq. reflexivity. Qed.

Lemma to_int_id (v : Z) : (0 <= v <= INT_MAX)%Z -> to_int v = v.
Proof. unfold to_int, INT_MAX. intros H. rewrite Z.mod_small; lia. Qed.

Lemma size_t_of_int_id (v : Z) : (0 <= v <= INT_MAX)%Z -> size_t_of_int v = v.
Proof. unfold size_t_of_int, INT_MAX. intros H. apply Z.mod_small. lia. Qed.

(** A running sum started at [a] is [a] plus the sum started at 0. *)
Lemma fold_add_shift (f : Z -> R) (l : list Z) (a : R) :
  fold_left (fun acc k => acc + f k) l a = a + fold_left (fun acc k => acc + f k) l 0.
Proof.
  revert a. induction l as [| k l IH]; intros a; simpl.
  - lra.
  - rewrite IH, (IH (0 + f k)). lra.
Qed.

Lemma fold_add_ext (f g : Z -> R) (l : list Z) (a : R) :
  (forall k, In k l -> f k = g k) ->
  fold_left (fun acc k => acc + f k) l a = fold_left (fun acc k => acc + g k) l a.
Proof.
  revert a. induction l as [| k l IH]; intros a H; simpl.
  - reflexivity.
  - rewrite (H k (or_introl eq_refl)). apply IH. intros j Hj. apply H. right. exact Hj.
Qed.

Lemma fold_add_nonneg (f : Z -> R) (l : list Z) :
  (forall k, In k l -> 0 <= f k) -> 0 <= fold_left (fun acc k => acc + f k) l 0.
Proof.
  induction l as [| k l IH]; intros H; simpl.
  - lra.
  - rewrite fold_add_shift.
    assert (0 <= f k) by (apply H; left; reflexivity).
    assert (0 <= fold_left (fun acc j => acc + f j) l 0)
      by (apply IH; intros j Hj; apply H; right; exact Hj).
    lra.
Qed.

Lemma fold_add_term (f : Z -> R) (l : list Z) (i : Z) :
  (forall k, In k l -> 0 <= f k) -> In i l ->
  f i <= fold_left (fun acc k => acc + f k) l 0.
Proof.
  induction l as [| k l IH]; intros H Hi; simpl.
  - destruct Hi.
  - rewrite fold_add_shift.
    assert (0 <= f k) by (apply H; left; reflexivity).
    assert (0 <= fold_left (fun acc j => acc + f j) l 0)
      by (apply fold_add_nonneg; intros j Hj; apply H; right; exact Hj).
    destruct Hi as [-> | Hi].
    + lra.
    + assert (f i <= fold_left (fun acc j => acc + f j) l 0)
        by (apply IH; [intros j Hj; apply H; right; exact Hj | exact Hi]).
      lra.
Qed.

Lemma fold_add_div (f : Z -> R) (d : R) (l : list Z) :
  fold_left (fun acc k => acc + f k / d) l 0 = fold_left (fun acc k => acc + f k) l 0 / d.
Proof.
  induction l as [| k l IH]; simpl.
  - unfold Rdiv. lra.
  - rewrite fold_add_shift, IH, (fold_add_shift f l (0 + f k)). unfold Rdiv. lra.
Qed.

Lemma fold_add_const (c : R) (l : list Z) :
  fold_left (fun acc _ => acc + c) l 0 = INR (List.length l) * c.
Proof.
  induction l as [| k l IH].
  - simpl. lra.
  - cbn [fold_left]. rewrite fold_add_shift, IH.
    change (List.length (k :: l)) with (S (List.length l)). rewrite S_INR. lra.
Qed.

Lemma sum_upto_ext (n : Z) (f g : Z -> R) :
  (forall k, (0 <= k < n)%Z -> f k = g k) -> sum_upto n f = sum_upto n g.
Proof.
  intros H. apply fold_add_ext. intros k Hk. apply H. apply index_range_In. exact Hk.
Qed.

Lemma sum_upto_nonneg (n : Z) (f : Z -> R) :
  (forall k, (0 <= k < n)%Z -> 0 <= f k) -> 0 <= sum_upto n f.
Proof.
  intros H. apply fold_add_nonneg. intros k Hk. apply H. apply index_range_In. exact Hk.
Qed.

Lemma sum_upto_term (n : Z) (f : Z -> R) (i : Z) :
  (forall k, (0 <= k < n)%Z -> 0 <= f k) -> (0 <= i < n)%Z -> f i <= sum_upto n f.
Proof.
  intros H Hi. apply fold_add_term.
  - intros k Hk. apply H. apply index_range_In. exact Hk.
  - apply index_range_In. exact Hi.
Qed.

Lemma sum_upto_div (n : Z) (f : Z -> R) (d : R) :
  sum_upto n (fun k => f k / d) = sum_upto n f / d.
Proof. apply fold_add_div. Qed.

Lemma sum_upto_const (n : Z) (c : R) : (0 <= n)%Z -> sum_upto n (fun _ => c) = IZR n * c.
Proof.
  intros H. unfold sum_upto. rewrite fold_add_const, index_range_length.
  rewrite INR_IZR_INZ, Z2Nat.id by exact H. reflexivity.
Qed.

(** The two nested accumulation loops of [Init_Sigma_Squared]. *)
Lemma nested_accumulation (g : Z -> Z -> R) (n m : Z) (a : R) :
  fold_left
    (fun acc i => fold_left (fun acc j => acc + g i j) (index_range m) acc)
    (index_range n) a
  = a + sum_upto n (fun i => sum_upto m (g i)).
Proof.
  unfold sum_upto. generalize (index_range n) as l. intros l. revert a.
  induction l as [| i l IH]; intros a; simpl.
  - lra.
  - rewrite IH, (fold_add_shift (g i) (index_range m) a).
    rewrite (fold_add_shift _ l (0 + _)). lra.
Qed.

(** The cells written by one row of a filling loop, and by the two nested
    loops. *)
Lemma fill_row (f : Z -> R) (m : Z) (ns : list Z) (A : MatrixXd) (i j : Z) :
  coef (fold_left (fun A n => set_coef A m n (f n)) ns A) i j
  = if ((i =? m)%Z && existsb (Z.eqb j) ns)%bool then f j else coef A i j.
Proof.
  revert A. induction ns as [| n ns IH]; intros A; simpl.
  - rewrite andb_false_r. reflexivity.
  - rewrite IH. simpl.
    destruct (i =? m)%Z; simpl; [| reflexivity].
    destruct (Z.eqb_spec j n) as [-> | Hn]; simpl.
    + destruct (existsb (Z.eqb n) ns); reflexivity.
    + reflexivity.
Qed.

Lemma fill_row_dims (f : Z -> R) (m : Z) (ns : list Z) (A : MatrixXd) :
  rows (fold_left (fun A n => set_coef A m n (f n)) ns A) = rows A /\
  cols (fold_left (fun A n => set_coef A m n (f n)) ns A) = cols A.
Proof.
  revert A. induction ns as [| n ns IH]; intros A; simpl.
  - split; reflexivity.
  - destruct (IH (set_coef A m n (f n))) as [-> ->]. split; reflexivity.
Qed.

Lemma fill (f : Z -> Z -> R) (ms ns : list Z) (A : MatrixXd) (i j : Z) :
  coef (fold_left (fun A m => fold_left (fun A n => set_coef A m n (f m n)) ns A) ms A) i j
  = if (existsb (Z.eqb i) ms && existsb (Z.eqb j) ns)%bool then f i j else coef A i j.
Proof.
  revert A. induction ms as [| m ms IH]; intros A; simpl.
  - reflexivity.
  - rewrite IH, fill_row.
    destruct (Z.eqb_spec i m) as [-> | Hm]; simpl.
    + destruct (existsb (Z.eqb m) ms); simpl; destruct (existsb (Z.eqb j) ns); reflexivity.
    + reflexivity.
Qed.

Lemma fill_dims (f : Z -> Z -> R) (ms ns : list Z) (A : MatrixXd) :
  rows (fold_left (fun A m => fold_left (fun A n => set_coef A m n (f m n)) ns A) ms A)
  = rows A /\
  cols (fold_left (fun A m => fold_left (fun A n => set_coef A m n (f m n)) ns A) ms A)
  = cols A.
Proof.
  revert A. induction ms as [| m ms IH]; intros A; simpl.
  - split; reflexivity.
  - destruct (IH (fold_left (fun A n => set_coef A m n (f m n)) ns A)) as [-> ->].
    apply fill_row_dims.
Qed.

End Loops.

(** ** The expectation step *)

Section Expectation.

Local Open Scope R_scope.

Variables xPoints yPoints rotationMatrix t : MatrixXd.
Variables sigmaSquared w scale : R.

Hypothesis rows_x : (0 <= rows xPoints <= INT_MAX)%Z.
Hypothesis rows_y : (0 <= rows yPoints <= INT_MAX)%Z.

Local Abbreviation kernel := (E_Step_kernel xPoints yPoints rotationMatrix t sigmaSquared).
Local Abbreviation quotient := (E_Step_quotient xPoints yPoints rotationMatrix t sigmaSquared w).

Lemma E_Step_expMat_coef (m n : Z) :
  (0 <= m < rows yPoints)%Z -> (0 <= n < rows xPoints)%Z ->
  coef (E_Step_expMat xPoints yPoints rotationMatrix t sigmaSquared) m n = kernel m n.
Proof.
  intros Hm Hn. unfold E_Step_expMat. cbv zeta.
  rewrite (to_int_id _ rows_x), (to_int_id _ rows_y).
  rewrite (size_t_of_int_id _ rows_x), (size_t_of_int_id _ rows_y).
  rewrite (fill kernel).
  rewrite !index_range_existsb.
  replace (0 <=? m)%Z with true by (symmetry; apply Z.leb_le; lia).
  replace (m <? rows yPoints)%Z with true by (symmetry; apply Z.ltb_lt; lia).
  replace (0 <=? n)%Z with true by (symmetry; apply Z.leb_le; lia).
  replace (n <? rows xPoints)%Z with true by (symmetry; apply Z.ltb_lt; lia).
  reflexivity.
Qed.

Lemma E_Step_expMat_rows :
  rows (E_Step_expMat xPoints yPoints rotationMatrix t sigmaSquared) = rows yPoints.
Proof. exact (proj1 (fill_dims kernel _ _ _)). Qed.

Lemma E_Step_rows :
  rows (E_Step xPoints yPoints rotationMatrix t sigmaSquared w scale) = rows yPoints.
Proof. exact (proj1 (fill_dims quotient _ _ _)). Qed.

Lemma E_Step_cols :
  cols (E_Step xPoints yPoints rotationMatrix t sigmaSquared w scale) = rows xPoints.
Proof. exact (proj2 (fill_dims quotient _ _ _)). Qed.

Lemma expMat_col_sum (n : Z) :
  (0 <= n < rows xPoints)%Z ->
  col_sum (E_Step_expMat xPoints yPoints rotationMatrix t sigmaSquared) n
  = sum_upto (rows yPoints) (fun m => kernel m n).
Proof.
  intros Hn. unfold col_sum. rewrite E_Step_expMat_rows.
  apply sum_upto_ext. intros m Hm. apply E_Step_expMat_coef; assumption.
Qed.

Lemma E_Step_coef (m n : Z) :
  (0 <= m < rows yPoints)%Z -> (0 <= n < rows xPoints)%Z ->
  coef (E_Step xPoints yPoints rotationMatrix t sigmaSquared w scale) m n
  = kernel m n
    / (sum_upto (rows yPoints) (fun m' => kernel m' n)
       + E_Step_constant xPoints yPoints sigmaSquared w).
Proof.
  intros Hm Hn. unfold E_Step. cbv zeta.
  rewrite (to_int_id _ rows_x), (to_int_id _ rows_y).
  rewrite (size_t_of_int_id _ rows_x), (size_t_of_int_id _ rows_y).
  rewrite (fill quotient).
  rewrite !index_range_existsb.
  replace (0 <=? m)%Z with true by (symmetry; apply Z.leb_le; lia).
  replace (m <? rows yPoints)%Z with true by (symmetry; apply Z.ltb_lt; lia).
  replace (0 <=? n)%Z with true by (symmetry; apply Z.leb_le; lia).
  replace (n <? rows xPoints)%Z with true by (symmetry; apply Z.ltb_lt; lia).
  cbn [andb]. unfold E_Step_quotient.
  rewrite E_Step_expMat_coef, expMat_col_sum by assumption. reflexivity.
Qed.

Lemma kernel_pos (m n : Z) : 0 < kernel m n.
Proof. apply exp_pos. Qed.

Hypothesis w_range : 0 <= w < 1.

Lemma E_Step_constant_nonneg : 0 <= E_Step_constant xPoints yPoints sigmaSquared w.
Proof.
  unfold E_Step_constant, pow. cbv zeta.
  rewrite (to_int_id _ rows_x), (to_int_id _ rows_y).
  assert (Hq : (0 <= Z.quot (rows yPoints) (rows xPoints) <= INT_MAX)%Z).
  { destruct (Z.eq_dec (rows xPoints) 0) as [E | E].
    - rewrite E, Z.quot_0_r_ext by reflexivity. unfold INT_MAX. lia.
    - split; [apply Z.quot_pos; lia |].
      assert (Z.quot (rows yPoints) (rows xPoints) <= rows yPoints)%Z.
      { rewrite Z.quot_div_nonneg by lia. apply Z.div_le_upper_bound; nia. }
      lia. }
  unfold int_div at 2. rewrite (to_int_id _ Hq).
  assert (0 <= IZR (Z.quot (rows yPoints) (rows xPoints))) by (apply IZR_le; lia).
  assert (0 < Rpower (2 * PI * sigmaSquared) (IZR (int_div (to_int (cols yPoints)) 2)))
    by (unfold Rpower; apply exp_pos).
  assert (0 <= w / (1 - w)) by (apply Rle_mult_inv_pos; lra).
  apply Rmult_le_pos; [apply Rmult_le_pos |]; lra.
Qed.

End Expectation.

Section Posterior.

Local Open Scope R_scope.

(** The formula of [E_Step] in exact arithmetic: for w in [0, 1) and
    sigma-squared > 0, every cell of the posterior lies in [0, 1] and every
    column of it sums to at most 1 (point counts that fit an [int]).  What
    binary64 makes of it where the kernel underflows is the theorem
    above. *)
Lemma E_Step_posterior_bounds (xPoints yPoints rotationMatrix t : MatrixXd)
    (sigmaSquared w scale : R) :
  (0 <= rows xPoints <= INT_MAX)%Z -> (0 <= rows yPoints <= INT_MAX)%Z ->
  0 <= w < 1 -> 0 < sigmaSquared ->
  let P := E_Step xPoints yPoints rotationMatrix t sigmaSquared w scale in
  rows P = rows yPoints /\ cols P = rows xPoints /\
  (forall m n, (0 <= m < rows yPoints)%Z -> (0 <= n < rows xPoints)%Z ->
               0 <= coef P m n <= 1) /\
  (forall n, (0 <= n < rows xPoints)%Z -> col_sum P n <= 1).
Proof.
  intros Hx Hy Hw Hs P.
  split; [apply E_Step_rows |]. split; [apply E_Step_cols |].
  pose proof (E_Step_constant_nonneg xPoints yPoints sigmaSquared w Hx Hy Hw) as Hc.
  set (c := E_Step_constant xPoints yPoints sigmaSquared w) in *.
  set (k := E_Step_kernel xPoints yPoints rotationMatrix t sigmaSquared).
  assert (Hk : forall m n, 0 < k m n) by (intros; apply kernel_pos).
  assert (HS : forall n, 0 <= sum_upto (rows yPoints) (fun m' => k m' n)).
  { intros n. apply sum_upto_nonneg. intros m _. apply Rlt_le, Hk. }
  split.
  - intros m n Hm Hn. subst P.
    rewrite (E_Step_coef _ _ _ _ _ w scale Hx Hy m n Hm Hn). fold k c.
    assert (Hterm : k m n <= sum_upto (rows yPoints) (fun m' => k m' n)).
    { apply (sum_upto_term (rows yPoints) (fun m' => k m' n) m); [| exact Hm].
      intros j _. apply Rlt_le, Hk. }
    specialize (Hk m n).
    set (S := sum_upto (rows yPoints) (fun m' => k m' n)) in *.
    assert (HD : 0 < S + c) by lra.
    split.
    + apply Rlt_le, Rdiv_lt_0_compat; lra.
    + apply (Rmult_le_reg_r (S + c)); [exact HD |].
      unfold Rdiv. rewrite Rmult_assoc, Rinv_l by lra. lra.
  - intros n Hn. subst P. unfold col_sum. rewrite E_Step_rows.
    rewrite (sum_upto_ext (rows yPoints) _
               (fun m => k m n / (sum_upto (rows yPoints) (fun m' => k m' n) + c))).
    2:{ intros m Hm. apply (E_Step_coef _ _ _ _ _ w scale Hx Hy m n Hm Hn). }
    rewrite (sum_upto_div (rows yPoints) (fun m => k m n)).
    specialize (HS n).
    set (S := sum_upto (rows yPoints) (fun m' => k m' n)) in *.
    destruct (Req_dec S 0) as [E | E].
    + rewrite E. unfold Rdiv. lra.
    + assert (HD : 0 < S + c) by lra.
      apply (Rmult_le_reg_r (S + c)); [exact HD |].
      unfold Rdiv. rewrite Rmult_assoc, Rinv_l by lra. lra.
Qed.

End Posterior.

(** ** The constant of the expectation step *)

Section Truncation.

Local Open Scope R_scope.

Local Abbreviation X := Inputs.two_points.
Local Abbreviation Y := Inputs.one_point.
Local Abbreviation Id := Inputs.identity3.
Local Abbreviation no_shift := Inputs.zero_translation.

Lemma squaredNorm_3 (v : Z -> R) :
  squaredNorm 3 v = 0 + v 0%Z * v 0%Z + v 1%Z * v 1%Z + v 2%Z * v 2%Z.
Proof. reflexivity. Qed.

Lemma sum_upto_1 (f : Z -> R) : sum_upto 1 f = 0 + f 0%Z.
Proof. reflexivity. Qed.

Lemma residual_at_origin (m n i : Z) : residual X Y Id no_shift m n i = 0.
Proof.
  unfold residual.
  cbn [coef Inputs.two_points Inputs.one_point Inputs.zero_translation cols Inputs.identity3].
  rewrite (sum_upto_ext 3 _ (fun _ => 0)) by (intros; lra).
  rewrite sum_upto_const by lia. lra.
Qed.

(** Apart from the constant, the cell the source computes is the quotient
    of the specification. *)
Lemma E_Step_coef_three_columns (xPoints yPoints rotationMatrix t : MatrixXd)
    (sigmaSquared w scale : R) (m n : Z) :
  cols xPoints = 3%Z ->
  (0 <= rows xPoints <= INT_MAX)%Z -> (0 <= rows yPoints <= INT_MAX)%Z ->
  (0 <= m < rows yPoints)%Z -> (0 <= n < rows xPoints)%Z ->
  coef (E_Step xPoints yPoints rotationMatrix t sigmaSquared w scale) m n
  = spec_kernel xPoints yPoints rotationMatrix t sigmaSquared m n
    / (sum_upto (rows yPoints)
         (fun m' => spec_kernel xPoints yPoints rotationMatrix t sigmaSquared m' n)
       + E_Step_constant xPoints yPoints sigmaSquared w).
Proof.
  intros Hc Hx Hy Hm Hn.
  assert (Hk : forall i j,
             E_Step_kernel xPoints yPoints rotationMatrix t sigmaSquared i j
             = spec_kernel xPoints yPoints rotationMatrix t sigmaSquared i j).
  { intros i j. unfold E_Step_kernel, spec_kernel. rewrite Hc. f_equal.
    unfold Rdiv. ring. }
  rewrite (E_Step_coef _ _ _ _ _ w scale Hx Hy m n Hm Hn), Hk.
  rewrite (sum_upto_ext (rows yPoints) _
             (fun m' => spec_kernel xPoints yPoints rotationMatrix t sigmaSquared m' n))
    by (intros; apply Hk).
  reflexivity.
Qed.

(** For three columns the exponent of the source is the [int] quotient
    3 / 2 = 1, and the ratio is the [int] quotient of the point counts. *)
Lemma E_Step_constant_three_columns (xPoints yPoints : MatrixXd) (sigmaSquared w : R) :
  cols yPoints = 3%Z ->
  (0 <= rows xPoints <= INT_MAX)%Z -> (0 <= rows yPoints <= INT_MAX)%Z ->
  0 < sigmaSquared ->
  E_Step_constant xPoints yPoints sigmaSquared w
  = 2 * PI * sigmaSquared * (w / (1 - w)) * IZR (int_div (rows yPoints) (rows xPoints)).
Proof.
  intros Hc Hx Hy Hs. unfold E_Step_constant. cbv zeta.
  rewrite Hc, (to_int_id _ Hx), (to_int_id _ Hy).
  change (int_div (to_int 3) 2) with 1%Z.
  unfold pow. rewrite Rpower_1; [reflexivity |].
  pose proof PI_RGT_0. apply Rmult_lt_0_compat; lra.
Qed.

(** C1 at a failing input: two stationary points and one moving point, all
    at the origin, the identity rotation, no translation, sigma-squared 1
    and w = 1/2.  The constant of the source is 0, its ratio M / N being the
    [int] quotient 1 / 2 = 0; the cell (0, 0) of the matrix returned is 1,
    whereas the posterior of the specification, with the real D / 2 and
    M / N, is smaller than 1. *)
Theorem E_Step_constant_is_truncated :
  E_Step_constant X Y 1 (1 / 2) = 0 /\
  coef (E_Step X Y Id no_shift 1 (1 / 2) 1) 0 0 = 1 /\
  spec_posterior X Y Id no_shift 1 (1 / 2) 0 0 < 1.
Proof.
  assert (Hx : (0 <= rows X <= INT_MAX)%Z) by (unfold INT_MAX; simpl; lia).
  assert (Hy : (0 <= rows Y <= INT_MAX)%Z) by (unfold INT_MAX; simpl; lia).
  assert (Hc : E_Step_constant X Y 1 (1 / 2) = 0).
  { unfold E_Step_constant. cbv zeta.
    change (IZR (int_div (to_int (rows Y)) (to_int (rows X)))) with 0. lra. }
  assert (Hk : forall m n, E_Step_kernel X Y Id no_shift 1 m n = 1).
  { intros m n. unfold E_Step_kernel. change (cols X) with 3%Z.
    rewrite squaredNorm_3, !residual_at_origin.
    replace (-1 / (2 * 1) * (0 + 0 * 0 + 0 * 0 + 0 * 0)) with 0 by lra.
    apply exp_0. }
  split; [exact Hc |]. split.
  - rewrite (E_Step_coef X Y Id no_shift 1 (1 / 2) 1 Hx Hy 0 0) by (simpl; lia).
    rewrite Hc. change (rows Y) with 1%Z. rewrite sum_upto_1, !Hk. lra.
  - unfold spec_posterior, spec_kernel, spec_constant.
    change (rows Y) with 1%Z. change (rows X) with 2%Z.
    rewrite sum_upto_1, squaredNorm_3, !residual_at_origin.
    replace (- (0 + 0 * 0 + 0 * 0 + 0 * 0) / (2 * 1)) with 0 by lra.
    rewrite exp_0.
    assert (Hp : 0 < Rpower (2 * PI * 1) (3 / 2)) by (unfold Rpower; apply exp_pos).
    set (c := Rpower (2 * PI * 1) (3 / 2)) in *.
    apply (Rmult_lt_reg_r (0 + 1 + c * (1 / 2 / (1 - 1 / 2)) * (1 / 2))); [lra |].
    unfold Rdiv at 1. rewrite Rmult_assoc, Rinv_l by lra. lra.
Qed.

End Truncation.

(** ** The initial variance *)

Section Variance.

Local Open Scope R_scope.

Local Abbreviation X := Inputs.origin_cloud.
Local Abbreviation Y := Inputs.unit_x_cloud.

Lemma Init_Sigma_Squared_sum (xPoints yPoints : MatrixXd) :
  Init_Sigma_Squared xPoints yPoints =
  1 / IZR (int_mul (int_mul (to_int (rows xPoints)) (to_int (rows yPoints)))
                   (to_int (cols xPoints)))
  * sum_upto (to_int (rows xPoints))
      (fun i => sum_upto (to_int (rows yPoints))
         (fun j => squaredNorm (cols xPoints) (fun k => coef xPoints i k - coef yPoints j k))).
Proof.
  unfold Init_Sigma_Squared. cbv zeta.
  rewrite (nested_accumulation
             (fun i j => squaredNorm (cols xPoints)
                           (fun k => coef xPoints i k - coef yPoints j k))).
  rewrite Rplus_0_l. reflexivity.
Qed.

(** Within the range of [int] the source computes the formula of the
    specification. *)
Lemma Init_Sigma_Squared_in_range (xPoints yPoints : MatrixXd) :
  cols xPoints = 3%Z -> (0 <= rows xPoints)%Z -> (0 <= rows yPoints)%Z ->
  (rows xPoints <= INT_MAX)%Z -> (rows yPoints <= INT_MAX)%Z ->
  (rows xPoints * rows yPoints * 3 <= INT_MAX)%Z ->
  Init_Sigma_Squared xPoints yPoints = spec_sigma_squared xPoints yPoints.
Proof.
  intros Hc Hx Hy Hx' Hy' Hp.
  rewrite Init_Sigma_Squared_sum. unfold spec_sigma_squared, int_mul. rewrite Hc.
  assert (H3 : to_int 3 = 3%Z) by reflexivity.
  rewrite H3, (to_int_id (rows xPoints)), (to_int_id (rows yPoints)) by lia.
  rewrite (to_int_id (rows xPoints * rows yPoints)) by nia.
  rewrite (to_int_id (rows xPoints * rows yPoints * 3)) by nia.
  rewrite !mult_IZR. reflexivity.
Qed.

Lemma unit_distance (i j : Z) :
  squaredNorm 3 (fun k => coef X i k - coef Y j k) = 1.
Proof.
  rewrite squaredNorm_3. cbn [coef Inputs.origin_cloud Inputs.unit_x_cloud].
  simpl Z.eqb. lra.
Qed.

Lemma unit_distances_sum :
  sum_upto 32768
    (fun i => sum_upto 32768 (fun j => squaredNorm 3 (fun k => coef X i k - coef Y j k)))
  = 32768 * (32768 * 1).
Proof.
  rewrite (sum_upto_ext 32768 _ (fun _ => 32768 * 1)).
  - apply sum_upto_const. lia.
  - intros i _. rewrite (sum_upto_ext 32768 _ (fun _ => 1)) by (intros; apply unit_distance).
    apply sum_upto_const. lia.
Qed.

(** C6 at a failing input: 32768 stationary points at the origin and 32768
    moving points at (1, 0, 0).  N * M * D = 3 * 2^30 is above [INT_MAX]; the
    [int] product of the source wraps to -2^30 and the source returns -1,
    whereas the formula of the specification gives 1/3. *)
Theorem Init_Sigma_Squared_overflows :
  Init_Sigma_Squared X Y = -1 /\ spec_sigma_squared X Y = 1 / 3.
Proof.
  split.
  - rewrite Init_Sigma_Squared_sum.
    change (cols X) with 3%Z.
    change (to_int (rows X)) with 32768%Z. change (to_int (rows Y)) with 32768%Z.
    change (int_mul (int_mul 32768 32768) (to_int 3)) with (-1073741824)%Z.
    rewrite unit_distances_sum. lra.
  - unfold spec_sigma_squared.
    change (rows X) with 32768%Z. change (rows Y) with 32768%Z.
    rewrite unit_distances_sum. lra.
Qed.

End Variance.

(** * Further properties of AlignPoints.cc *)

(** ** Cells of the transform *)

Lemma coeff_guard (T : AffineTransform) (i j : Z) :
  coeff T i j = Throw fixed_coefficients <-> ~ ((0 <= i <= 3)%Z /\ (0 <= j <= 2)%Z).
Proof.
  unfold coeff.
  destruct (isininc 0 i 3) eqn:Hi; destruct (isininc 0 j 2) eqn:Hj; simpl;
    rewrite <- ?isininc_iff, ?Hi, ?Hj; split; intros H; try reflexivity;
    try discriminate; try (intros [? ?]; discriminate).
  exfalso; apply H; split; reflexivity.
Qed.

(** X1: a write through [coeff] that did not throw is read back by [coeff]
    at the same indices, and every other pair of indices reads (or throws)
    as before the write; the cells with second index 3 cannot even be
    read. *)
Theorem coeff_write_then_read (T T' : AffineTransform) (i j : Z) (v : float) :
  coeff_assign T i j v = Return T' ->
  coeff T' i j = Return v /\
  (forall i' j', (i', j') <> (i, j) -> coeff T' i' j' = coeff T i' j') /\
  (forall i', coeff T' i' 3 = Throw fixed_coefficients).
Proof.
  intros Hw.
  assert (Hr : (0 <= i <= 3)%Z /\ (0 <= j <= 2)%Z).
  { destruct (Z_le_dec 0 i), (Z_le_dec i 3), (Z_le_dec 0 j), (Z_le_dec j 2);
      try (split; lia);
      assert (E : coeff_assign T i j v = Throw fixed_coefficients)
        by (apply coeff_assign_guard; lia);
      rewrite E in Hw; discriminate Hw. }
  destruct Hr as [Hi Hj].
  unfold coeff_assign in Hw.
  rewrite (proj2 (isininc_iff 0 i 3) Hi), (proj2 (isininc_iff 0 j 2) Hj) in Hw.
  simpl in Hw. injection Hw as <-.
  assert (Ei : (i = 0 \/ i = 1 \/ i = 2 \/ i = 3)%Z) by lia.
  assert (Ej : (j = 0 \/ j = 1 \/ j = 2)%Z) by lia.
  split; [| split].
  - unfold coeff.
    rewrite (proj2 (isininc_iff 0 i 3) Hi), (proj2 (isininc_iff 0 j 2) Hj). simpl.
    destruct Ei as [-> | [-> | [-> | ->]]]; destruct Ej as [-> | [-> | ->]]; reflexivity.
  - intros i' j' Hne. unfold coeff.
    destruct (isininc 0 i' 3) eqn:Hi'; [| reflexivity].
    destruct (isininc 0 j' 2) eqn:Hj'; [| reflexivity].
    simpl. f_equal.
    apply isininc_iff in Hi', Hj'.
    assert (Ei' : (i' = 0 \/ i' = 1 \/ i' = 2 \/ i' = 3)%Z) by lia.
    assert (Ej' : (j' = 0 \/ j' = 1 \/ j' = 2)%Z) by lia.
    destruct Ei as [-> | [-> | [-> | ->]]]; destruct Ej as [-> | [-> | ->]];
      destruct Ei' as [-> | [-> | [-> | ->]]]; destruct Ej' as [-> | [-> | ->]];
      try reflexivity; exfalso; apply Hne; reflexivity.
  - intros i'. apply coeff_guard. lia.
Qed.

Lemma coeff_write_then_read_witness :
  coeff_assign identity 3 1 7%float = Return
    {| t := Array4 (Array4 1 0 0 0) (Array4 0 1 0 0) (Array4 0 0 1 0) (Array4 0 7 0 1) |}%float /\
  coeff {| t := Array4 (Array4 1 0 0 0) (Array4 0 1 0 0) (Array4 0 0 1 0)
                       (Array4 0 7 0 1) |}%float 3 1 = Return 7%float.
Proof.
  assert (Hw : coeff_assign identity 3 1 7%float = Return
    {| t := Array4 (Array4 1 0 0 0) (Array4 0 1 0 0) (Array4 0 0 1 0)
                   (Array4 0 7 0 1) |}%float) by reflexivity.
  split; [exact Hw |].
  exact (proj1 (coeff_write_then_read _ _ 3 1 7%float Hw)).
Defined.

(** ** Points the transform refuses *)

(** X2: under a transform built through [coeff], [apply_to] throws "not
    Affine" exactly on the points that have a NaN or an infinite coordinate:
    such a coordinate times the fixed 0.0 is NaN, and so is the weight. *)
Theorem apply_to_refuses_non_finite (T : AffineTransform) (p : vec3) :
  reachable T ->
  (apply_to T p = Throw not_affine <-> finite_point p = false).
Proof.
  intros HT. rewrite (apply_to_on_reachable T p HT).
  destruct (finite_point p); split; intros H; try reflexivity; discriminate H.
Qed.

Lemma apply_to_refuses_non_finite_witness :
  reachable Samples.shifted /\
  apply_to Samples.shifted (Vec3 1 infinity 3) = Throw not_affine.
Proof.
  assert (HT : reachable Samples.shifted).
  { apply (@reach_assign identity Samples.shifted 3 0 5%float reach_identity). reflexivity. }
  split; [exact HT |].
  apply (proj2 (apply_to_refuses_non_finite Samples.shifted (Vec3 1 infinity 3) HT)).
  reflexivity.
Defined.

(** ** Transforming a cloud *)

Lemma mapM_Return {A B : Type} (f : A -> result B) (l : list A) (l' : list B) :
  mapM f l = Return l' -> Forall2 (fun a b => f a = Return b) l l'.
Proof.
  revert l'. induction l as [| a l IH]; intros l' H; simpl in H.
  - injection H as <-. constructor.
  - destruct (f a) as [b | e] eqn:Ha; simpl in H; [| discriminate H].
    destruct (mapM f l) as [bs | e] eqn:Hl; simpl in H; [| discriminate H].
    injection H as <-. constructor; [exact Ha | apply IH; reflexivity].
Qed.

Lemma mapM_all_or_first {A B : Type} (f : A -> result B) (ok : A -> bool) (e : exception)
    (l : list A) :
  (forall a, f a = Throw e \/ exists b, f a = Return b) ->
  (forall a, f a = Throw e <-> ok a = false) ->
  if forallb ok l then exists l', mapM f l = Return l' else mapM f l = Throw e.
Proof.
  intros Hf Hok. induction l as [| a l IH]; simpl.
  - eexists; reflexivity.
  - destruct (ok a) eqn:Ha; simpl.
    + destruct (Hf a) as [E | [b E]].
      * apply Hok in E. congruence.
      * rewrite E. simpl. destruct (forallb ok l).
        -- destruct IH as [l' ->]. eexists; reflexivity.
        -- rewrite IH. reflexivity.
    + rewrite (proj2 (Hok a) Ha). reflexivity.
Qed.

Section Cloud.

Local Open Scope result_scope.

Variable attr : Type.

Lemma apply_to_cloud_Return (T : AffineTransform) (pc pc' : Point_Cloud attr) :
  apply_to_cloud T pc = Return pc' ->
  Forall2 (fun p q => apply_to T (fst p) = Return (fst q) /\ snd q = snd p)
          (points pc) (points pc').
Proof.
  unfold apply_to_cloud. intros H.
  destruct (mapM _ (points pc)) as [pts |] eqn:Hm; simpl in H; [| discriminate H].
  injection H as <-. simpl.
  apply mapM_Return in Hm.
  induction Hm as [| p q l l' Hpq _ IH]; constructor; [| exact IH].
  destruct (apply_to T (fst p)) as [v |]; simpl in Hpq; [| discriminate Hpq].
  injection Hpq as <-. split; reflexivity.
Qed.

Lemma apply_to_cloud_same_attributes (T : AffineTransform) (pc pc' : Point_Cloud attr) :
  apply_to_cloud T pc = Return pc' -> same_attributes pc pc'.
Proof.
  intros H. apply apply_to_cloud_Return in H. unfold same_attributes.
  induction H as [| p q l l' [_ Hs] _ IH]; simpl; [reflexivity |].
  rewrite Hs, IH. reflexivity.
Qed.


Lemma apply_to_cloud_on_reachable (T : AffineTransform) (pc : Point_Cloud attr) :
  reachable T ->
  if finite_cloud pc then exists pc', apply_to_cloud T pc = Return pc'
  else apply_to_cloud T pc = Throw not_affine.
Proof.
  intros HT. unfold apply_to_cloud, finite_cloud.
  pose proof (mapM_all_or_first
                (fun p : vec3 * attr => q <- apply_to T (fst p) ;; Return (q, snd p))
                (fun p => finite_point (fst p)) not_affine (points pc)) as Hm.
  destruct (forallb _ (points pc)).
  - destruct Hm as [l' ->].
    + intros p. rewrite (apply_to_on_reachable T (fst p) HT).
      destruct (finite_point (fst p)); simpl; eauto.
    + intros p. rewrite (apply_to_on_reachable T (fst p) HT).
      destruct (finite_point (fst p)); simpl; split; intros H;
        try reflexivity; discriminate H.
    + eexists; reflexivity.
  - rewrite Hm; [reflexivity | |].
    + intros p. rewrite (apply_to_on_reachable T (fst p) HT).
      destruct (finite_point (fst p)); simpl; eauto.
    + intros p. rewrite (apply_to_on_reachable T (fst p) HT).
      destruct (finite_point (fst p)); simpl; split; intros H;
        try reflexivity; discriminate H.
Qed.

(** X3: when [apply_to] on a cloud returns, the cloud has the points it had,
    in the same order: each position is the image of the old one under the
    pointwise [apply_to], and each point keeps its attribute. *)
Theorem apply_to_cloud_pointwise (T : AffineTransform) (pc pc' : Point_Cloud attr) :
  apply_to_cloud T pc = Return pc' ->
  List.length (points pc') = List.length (points pc) /\
  map snd (points pc') = map snd (points pc) /\
  Forall2 (fun p q => apply_to T (fst p) = Return (fst q)) (points pc) (points pc').
Proof.
  intros H. pose proof (apply_to_cloud_same_attributes T pc pc' H) as Ha.
  apply apply_to_cloud_Return in H.
  split; [symmetry; exact (Forall2_length H) |].
  split; [exact Ha |].
  induction H as [| p q l l' [Hp _] _ IH]; constructor; assumption.
Qed.

(** X4: under a transform built through [coeff], [apply_to] on a cloud
    returns when every position is finite and throws "not Affine" when some
    position has a NaN or an infinite coordinate. *)
Theorem apply_to_cloud_refuses_non_finite (T : AffineTransform) (pc : Point_Cloud attr) :
  reachable T ->
  ((exists pc', apply_to_cloud T pc = Return pc') <-> finite_cloud pc = true) /\
  (apply_to_cloud T pc = Throw not_affine <-> finite_cloud pc = false).
Proof.
  intros HT. pose proof (apply_to_cloud_on_reachable T pc HT) as H.
  destruct (finite_cloud pc).
  - destruct H as [pc' H]. rewrite H. split; split; intros E; try discriminate E; eauto.
  - rewrite H. split; split; intros E; try reflexivity; try discriminate E.
    destruct E as [pc' E]. discriminate E.
Qed.

End Cloud.

(** ** The operator's container *)

Section Container.

Variable attr : Type.
Context {RS : Running_Sum_ops}.
Variable pow : float -> float -> float.
Variable eigenvectors : Matrix3d -> Matrix3d.

Lemma same_attributes_refl (pc : Point_Cloud attr) : same_attributes pc pc.
Proof. reflexivity. Qed.

Lemma same_attributes_trans (a b c : Point_Cloud attr) :
  same_attributes a b -> same_attributes b c -> same_attributes a c.
Proof. unfold same_attributes. intros H1 H2. rewrite H2. exact H1. Qed.

Lemma Forall2_same_refl (l : list (Point_Cloud attr)) : Forall2 same_attributes l l.
Proof. induction l; constructor; [apply same_attributes_refl | assumption]. Qed.

Lemma Forall2_same_trans (l1 l2 l3 : list (Point_Cloud attr)) :
  Forall2 same_attributes l1 l2 -> Forall2 same_attributes l2 l3 ->
  Forall2 same_attributes l1 l3.
Proof.
  intros H. revert l3. induction H as [| a b l1 l2 Hab _ IH]; intros l3 H23.
  - inversion H23. constructor.
  - inversion H23 as [| b' c l2' l3' Hbc Hrest]; subst.
    constructor; [exact (same_attributes_trans a b c Hab Hbc) | apply IH; exact Hrest].
Qed.

Lemma replace_at_length {A : Type} (i : nat) (v : A) (l : list A) :
  List.length (replace_at i v l) = List.length l.
Proof.
  revert i. induction l as [| a l IH]; intros [| i]; simpl; try reflexivity.
  rewrite IH. reflexivity.
Qed.

Lemma replace_at_other {A : Type} (i k : nat) (v : A) (l : list A) :
  k <> i -> nth_error (replace_at i v l) k = nth_error l k.
Proof.
  revert i k. induction l as [| a l IH]; intros [| i] [| k] H; simpl; try reflexivity.
  - contradiction.
  - apply IH. intros E. apply H. rewrite E. reflexivity.
Qed.

Lemma replace_at_same_attributes (i : nat) (pc pc' : Point_Cloud attr)
    (l : list (Point_Cloud attr)) :
  nth_error l i = Some pc -> same_attributes pc pc' ->
  Forall2 same_attributes l (replace_at i pc' l).
Proof.
  revert i. induction l as [| a l IH]; intros [| i] Hn Hs; simpl in *; try discriminate Hn.
  - injection Hn as ->. constructor; [exact Hs | apply Forall2_same_refl].
  - constructor; [apply same_attributes_refl | apply IH; assumption].
Qed.

Lemma round_keeps_refl (it : nat) (point_data : list (Point_Cloud attr)) :
  round_keeps it point_data point_data.
Proof. repeat split. apply Forall2_same_refl. Qed.

Lemma transform_in_place_keeps (point_data point_data' : list (Point_Cloud attr)) (it : nat)
    (t_opt : option AffineTransform) :
  transform_in_place point_data it t_opt = Return point_data' ->
  round_keeps it point_data point_data'.
Proof.
  unfold transform_in_place.
  destruct t_opt as [T |]; [| intros H; injection H as <-; apply round_keeps_refl].
  destruct (nth_error point_data it) as [pc |] eqn:Hn;
    [| intros H; injection H as <-; apply round_keeps_refl].
  destruct (apply_to_cloud T pc) as [pc' |] eqn:Ha; simpl; [| discriminate].
  intros H. injection H as <-.
  split; [apply replace_at_length |].
  split; [intros k Hk; apply replace_at_other; exact Hk |].
  apply (replace_at_same_attributes it pc pc' point_data Hn).
  exact (apply_to_cloud_same_attributes attr T pc pc' Ha).
Qed.

Lemma align_with_keeps
    (aligner : Point_Cloud attr -> Point_Cloud attr -> result (option AffineTransform))
    (ref it : nat) (point_data point_data' : list (Point_Cloud attr)) :
  align_with aligner ref point_data it = Return point_data' ->
  round_keeps it point_data point_data'.
Proof.
  unfold align_with.
  destruct (nth_error point_data it) as [moving |];
    [| intros H; injection H as <-; apply round_keeps_refl].
  destruct (nth_error point_data ref) as [stationary |];
    [| intros H; injection H as <-; apply round_keeps_refl].
  destruct (aligner moving stationary) as [t_opt |]; simpl; [| discriminate].
  apply transform_in_place_keeps.
Qed.

Lemma align_one_keeps (MethodStr : string) (ref it : nat)
    (point_data point_data' : list (Point_Cloud attr)) :
  align_one pow eigenvectors MethodStr ref point_data it = Return point_data' ->
  round_keeps it point_data point_data'.
Proof.
  unfold align_one.
  destruct (regex_match MethodStr regex_com); [apply align_with_keeps |].
  destruct (regex_match MethodStr regex_pca); [apply align_with_keeps | discriminate].
Qed.

Lemma align_all_keeps (MethodStr : string) (ref : nat) (moving_PCs : list nat)
    (point_data point_data' : list (Point_Cloud attr)) :
  align_all pow eigenvectors MethodStr ref point_data moving_PCs = Return point_data' ->
  List.length point_data' = List.length point_data /\
  (forall k, ~ In k moving_PCs -> nth_error point_data' k = nth_error point_data k) /\
  Forall2 same_attributes point_data point_data'.
Proof.
  revert point_data. induction moving_PCs as [| it rest IH]; intros point_data H; simpl in H.
  - injection H as <-. repeat split. apply Forall2_same_refl.
  - destruct (align_one pow eigenvectors MethodStr ref point_data it) as [pd1 |] eqn:H1;
      simpl in H; [| discriminate H].
    apply align_one_keeps in H1. destruct H1 as [L1 [O1 S1]].
    apply IH in H. destruct H as [L2 [O2 S2]].
    split; [congruence |]. split.
    + intros k Hk. rewrite O2 by (intros Hin; apply Hk; right; exact Hin).
      apply O1. intros E. apply Hk. left. symmetry. exact E.
    + exact (Forall2_same_trans _ _ _ S1 S2).
Qed.

(** X5: when the operator returns, the container has as many clouds as
    before, every cloud that was not selected as a moving cloud is unchanged,
    and every cloud has kept its points' attributes (so its number of
    points). *)
Theorem AlignPoints_keeps_the_container (point_data point_data' : list (Point_Cloud attr))
    (ref_PCs moving_PCs : list nat) (MethodStr : string) :
  AlignPoints pow eigenvectors point_data ref_PCs moving_PCs MethodStr = Return point_data' ->
  List.length point_data' = List.length point_data /\
  (forall k, ~ In k moving_PCs -> nth_error point_data' k = nth_error point_data k) /\
  Forall2 same_attributes point_data point_data'.
Proof.
  unfold AlignPoints.
  destruct ref_PCs as [| ref [| ? ?]]; try discriminate.
  apply align_all_keeps.
Qed.

Lemma reachable_written (T : AffineTransform) (i j : Z) (v : float) :
  reachable T -> isininc 0 i 3 && isininc 0 j 2 = true -> reachable (written T i j v).
Proof.
  intros HT Hr. apply (@reach_assign T _ i j v HT).
  unfold coeff_assign. apply andb_true_iff in Hr as [-> ->]. reflexivity.
Qed.

Ltac reach_by_writes :=
  repeat (apply reachable_written; [| reflexivity]); apply reach_identity.

Lemma aligner_never_throws_COM (moving stationary : Point_Cloud attr) :
  exists T, AlignViaCOM moving stationary = Return (Some T) /\ reachable T.
Proof. eexists. split; [reflexivity |]. reach_by_writes. Qed.

Lemma aligner_never_throws_PCA (moving stationary : Point_Cloud attr) :
  exists T, AlignViaPCA pow eigenvectors moving stationary = Return (Some T) /\ reachable T.
Proof. eexists. split; [reflexivity |]. reach_by_writes. Qed.




(** X7: with one reference cloud and one moving cloud, and a method string
    that one of the two patterns matches, the operator returns when every
    position of the moving cloud is finite, whatever the reference cloud and
    the transform computed from it, and throws "not Affine" when the moving
    cloud has a NaN or an infinite coordinate. *)
Theorem AlignPoints_fails_on_non_finite_only (point_data : list (Point_Cloud attr))
    (ref it : nat) (MethodStr : string) (moving stationary : Point_Cloud attr) :
  nth_error point_data it = Some moving ->
  nth_error point_data ref = Some stationary ->
  regex_match MethodStr regex_com || regex_match MethodStr regex_pca = true ->
  if finite_cloud moving
  then exists point_data',
         AlignPoints pow eigenvectors point_data [ref] [it] MethodStr = Return point_data'
  else AlignPoints pow eigenvectors point_data [ref] [it] MethodStr = Throw not_affine.
Proof.
  intros Hm Hs Hr.
  assert (Hw : forall aligner,
             (forall m s, exists T, aligner m s = Return (Some T) /\ reachable T) ->
             if finite_cloud moving
             then exists pd', align_with aligner ref point_data it = Return pd'
             else align_with aligner ref point_data it = Throw not_affine).
  { intros aligner Ha. unfold align_with. rewrite Hm, Hs.
    destruct (Ha moving stationary) as [T [-> HT]]. simpl.
    unfold transform_in_place. rewrite Hm.
    pose proof (apply_to_cloud_on_reachable attr T moving HT) as Hc.
    destruct (finite_cloud moving).
    - destruct Hc as [pc' ->]. simpl. eexists; reflexivity.
    - rewrite Hc. reflexivity. }
  unfold AlignPoints. cbn [align_all]. unfold align_one.
  destruct (regex_match MethodStr regex_com).
  - specialize (Hw _ aligner_never_throws_COM).
    destruct (finite_cloud moving).
    + destruct Hw as [pd' ->]. simpl. eexists; reflexivity.
    + rewrite Hw. reflexivity.
  - destruct (regex_match MethodStr regex_pca); [| discriminate Hr].
    specialize (Hw _ aligner_never_throws_PCA).
    destruct (finite_cloud moving).
    + destruct Hw as [pd' ->]. simpl. eexists; reflexivity.
    + rewrite Hw. reflexivity.
Qed.

End Container.

(** ** Method strings *)

Lemma lowercase_length (s : string) : String.length (lowercase s) = String.length s.
Proof.
  unfold lowercase. induction s as [| c s IH]; simpl; [reflexivity |].
  rewrite IH. reflexivity.
Qed.

(** X8: a method string that is accepted selects exactly one of the two
    aligners, so the order of the two branches plays no role, and it has
    between one and three characters. *)
Theorem Method_selects_one_aligner (MethodStr : string) :
  regex_match MethodStr regex_com || regex_match MethodStr regex_pca = true ->
  xorb (regex_match MethodStr regex_com) (regex_match MethodStr regex_pca) = true /\
  (1 <= String.length MethodStr <= 3)%nat.
Proof.
  intros H. rewrite <- (lowercase_length MethodStr).
  destruct (regex_match MethodStr regex_com) eqn:Hc;
    destruct (regex_match MethodStr regex_pca) eqn:Hp; try discriminate H.
  - unfold regex_match in Hc, Hp. apply match_com in Hc. apply match_pca in Hp.
    fold (lowercase MethodStr) in Hc, Hp. exfalso.
    simpl in Hc, Hp.
    repeat match goal with H : _ \/ _ |- _ => destruct H as [H | H] end;
      try contradiction; congruence.
  - split; [reflexivity |].
    unfold regex_match in Hc. apply match_com in Hc. fold (lowercase MethodStr) in Hc.
    simpl in Hc.
    repeat match goal with H : _ \/ _ |- _ => destruct H as [H | H] end;
      try contradiction; rewrite <- Hc; simpl; lia.
  - split; [reflexivity |].
    unfold regex_match in Hp. apply match_pca in Hp. fold (lowercase MethodStr) in Hp.
    simpl in Hp.
    repeat match goal with H : _ \/ _ |- _ => destruct H as [H | H] end;
      try contradiction; rewrite <- Hp; simpl; lia.
Qed.

Lemma Method_selects_one_aligner_witness :
  regex_match "Co" regex_com || regex_match "Co" regex_pca = true /\
  xorb (regex_match "Co" regex_com) (regex_match "Co" regex_pca) = true.
Proof.
  assert (H : regex_match "Co" regex_com || regex_match "Co" regex_pca = true) by reflexivity.
  split; [exact H |]. exact (proj1 (Method_selects_one_aligner "Co" H)).
Defined.

(** ** Witnesses on the sample clouds *)

Lemma shifted_is_reachable : reachable Samples.shifted.
Proof.
  apply (@reach_assign identity Samples.shifted 3 0 5%float reach_identity). reflexivity.
Qed.

Lemma apply_to_cloud_pointwise_witness :
  apply_to_cloud Samples.shifted Samples.tetrahedron
  = Return (Samples.cloud [Vec3 5 0 0; Vec3 7 0 0; Vec3 5 2 0; Vec3 5 0 2]) /\
  List.length (points (Samples.cloud [Vec3 5 0 0; Vec3 7 0 0; Vec3 5 2 0; Vec3 5 0 2]))
  = List.length (points Samples.tetrahedron).
Proof.
  assert (H : apply_to_cloud Samples.shifted Samples.tetrahedron
              = Return (Samples.cloud [Vec3 5 0 0; Vec3 7 0 0; Vec3 5 2 0; Vec3 5 0 2]))
    by (vm_compute; reflexivity).
  split; [exact H |].
  exact (proj1 (apply_to_cloud_pointwise Datatypes.unit Samples.shifted Samples.tetrahedron
                  _ H)).
Defined.

Lemma apply_to_cloud_refuses_non_finite_witness :
  reachable Samples.shifted /\
  apply_to_cloud Samples.shifted (Samples.cloud [Vec3 0 0 0; Vec3 nan 0 0])
  = Throw not_affine.
Proof.
  split; [exact shifted_is_reachable |].
  apply (proj2 (apply_to_cloud_refuses_non_finite Datatypes.unit Samples.shifted
                  (Samples.cloud [Vec3 0 0 0; Vec3 nan 0 0]) shifted_is_reachable)).
  reflexivity.
Defined.

Lemma AlignPoints_keeps_the_container_witness :
  AlignPoints Samples.cube Samples.coordinate_axes
    [Samples.tetrahedron_shifted; Samples.tetrahedron] [1%nat] [0%nat] "com"
  = Return [Samples.tetrahedron; Samples.tetrahedron] /\
  nth_error [Samples.tetrahedron; Samples.tetrahedron] 1
  = nth_error [Samples.tetrahedron_shifted; Samples.tetrahedron] 1.
Proof.
  assert (H : AlignPoints Samples.cube Samples.coordinate_axes
                [Samples.tetrahedron_shifted; Samples.tetrahedron] [1%nat] [0%nat] "com"
              = Return [Samples.tetrahedron; Samples.tetrahedron])
    by (vm_compute; reflexivity).
  split; [exact H |].
  apply (proj1 (proj2 (AlignPoints_keeps_the_container Datatypes.unit Samples.cube
                         Samples.coordinate_axes _ _ [1%nat] [0%nat] "com" H))).
  simpl. intros [E | []]. discriminate E.
Defined.


Lemma AlignPoints_fails_on_non_finite_only_witness :
  nth_error [Samples.cloud [Vec3 infinity 0 0]; Samples.cloud []] 0
  = Some (Samples.cloud [Vec3 infinity 0 0]) /\
  nth_error [Samples.cloud [Vec3 infinity 0 0]; Samples.cloud []] 1
  = Some (Samples.cloud []) /\
  regex_match "pca" regex_com || regex_match "pca" regex_pca = true /\
  AlignPoints Samples.cube Samples.coordinate_axes
    [Samples.cloud [Vec3 infinity 0 0]; Samples.cloud []] [1%nat] [0%nat] "pca"
  = Throw not_affine.
Proof.
  assert (Hm : nth_error [Samples.cloud [Vec3 infinity 0 0]; Samples.cloud []] 0
               = Some (Samples.cloud [Vec3 infinity 0 0])) by reflexivity.
  assert (Hs : nth_error [Samples.cloud [Vec3 infinity 0 0]; Samples.cloud []] 1
               = Some (Samples.cloud [])) by reflexivity.
  assert (Hr : regex_match "pca" regex_com || regex_match "pca" regex_pca = true)
    by reflexivity.
  split; [exact Hm |]. split; [exact Hs |]. split; [exact Hr |].
  exact (AlignPoints_fails_on_non_finite_only Datatypes.unit Samples.cube
           Samples.coordinate_axes _ 1%nat 0%nat "pca" _ _ Hm Hs Hr).
Defined.

(** * Further properties of CPD_Shared.cc *)

(** ** Finite sums *)

Section Sums.

Local Open Scope R_scope.


Lemma fold_add_scal (c : R) (f : Z -> R) (l : list Z) :
  fold_left (fun acc k => acc + c * f k) l 0 = c * fold_left (fun acc k => acc + f k) l 0.
Proof.
  induction l as [| k l IH]; simpl.
  - lra.
  - rewrite fold_add_shift, IH, (fold_add_shift f l (0 + f k)). lra.
Qed.




Lemma sum_upto_scal (n : Z) (c : R) (f : Z -> R) :
  sum_upto n (fun k => c * f k) = c * sum_upto n f.
Proof. apply fold_add_scal. Qed.



Lemma fold_add_delta (g : Z -> R) (j : Z) (l : list Z) :
  NoDup l ->
  fold_left (fun acc k => acc + (if (k =? j)%Z then g k else 0)) l 0
  = if existsb (Z.eqb j) l then g j else 0.
Proof.
  induction l as [| k l IH]; intros Hnd; simpl.
  - reflexivity.
  - inversion Hnd as [| ? ? Hk Hl]; subst.
    rewrite fold_add_shift, (IH Hl).
    destruct (Z.eqb_spec k j) as [-> | Hne].
    + rewrite Z.eqb_refl. simpl.
      destruct (existsb (Z.eqb j) l) eqn:E; [| lra].
      exfalso. apply Hk. apply existsb_exists in E as [u [Hu Eu]].
      apply Z.eqb_eq in Eu. subst u. exact Hu.
    + replace (j =? k)%Z with false by (symmetry; apply Z.eqb_neq; congruence).
      simpl. lra.
Qed.

Lemma index_range_NoDup (n : Z) : NoDup (index_range n).
Proof.
  unfold index_range. generalize (seq_NoDup (Z.to_nat n) 0).
  induction 1 as [| a l Ha _ IH]; simpl; constructor; [| exact IH].
  intros Hin. apply in_map_iff in Hin as [b [E Hb]].
  apply Nat2Z.inj in E. subst b. exact (Ha Hb).
Qed.

Lemma sum_upto_delta (n j : Z) (g : Z -> R) :
  (0 <= j < n)%Z ->
  sum_upto n (fun k => if (k =? j)%Z then g k else 0) = g j.
Proof.
  intros H. unfold sum_upto. rewrite fold_add_delta by apply index_range_NoDup.
  rewrite index_range_existsb.
  replace (0 <=? j)%Z with true by (symmetry; apply Z.leb_le; lia).
  replace (j <? n)%Z with true by (symmetry; apply Z.ltb_lt; lia).
  reflexivity.
Qed.

End Sums.

(** ** The helpers of the maximisation step *)

Section Helpers.

Local Open Scope R_scope.


Lemma AlignedPointSet_coef (yPoints rotationMatrix translation : MatrixXd) (scale : R)
    (i j : Z) :
  coef (AlignedPointSet yPoints rotationMatrix translation scale) i j
  = scale * sum_upto (cols yPoints) (fun k => coef rotationMatrix j k * coef yPoints i k)
    + coef translation j 0%Z.
Proof.
  unfold AlignedPointSet. cbn [coef sum_of product transposed scaled Ones cols].
  rewrite sum_upto_1, <- sum_upto_scal.
  rewrite (sum_upto_ext (cols yPoints) _
             (fun k => scale * (coef rotationMatrix j k * coef yPoints i k)))
    by (intros; unfold Rdiv; ring).
  (unfold Rdiv; ring).
Qed.

(** X10: with the identity rotation, no translation and scale 1,
    [AlignedPointSet] returns the points it was given. *)
Theorem AlignedPointSet_identity (yPoints rotationMatrix translation : MatrixXd) (i j : Z) :
  (forall r k, coef rotationMatrix r k = if (r =? k)%Z then 1 else 0) ->
  (forall r, coef translation r 0%Z = 0) ->
  (0 <= j < cols yPoints)%Z ->
  rows (AlignedPointSet yPoints rotationMatrix translation 1) = rows yPoints /\
  coef (AlignedPointSet yPoints rotationMatrix translation 1) i j = coef yPoints i j.
Proof.
  intros HR Ht Hj. split; [reflexivity |].
  rewrite AlignedPointSet_coef, Ht.
  rewrite (sum_upto_ext (cols yPoints) _
             (fun k => if (k =? j)%Z then coef yPoints i k else 0)).
  - rewrite (sum_upto_delta (cols yPoints) j (fun k => coef yPoints i k) Hj). lra.
  - intros k _. rewrite HR, Z.eqb_sym. destruct (k =? j)%Z; (unfold Rdiv; ring).
Qed.






End Helpers.

(** ** The initial variance, again *)

Section Variance_more.

Local Open Scope R_scope.

Lemma squaredNorm_nonneg (n : Z) (v : Z -> R) : 0 <= squaredNorm n v.
Proof. apply sum_upto_nonneg. intros k _. apply Rle_0_sqr. Qed.

(** X18: as long as the [int] product N * M * D does not overflow, the
    initial variance is not negative. *)
Theorem Init_Sigma_Squared_nonneg (xPoints yPoints : MatrixXd) :
  (1 <= rows xPoints)%Z -> (1 <= rows yPoints)%Z -> (1 <= cols xPoints)%Z ->
  (rows xPoints * rows yPoints * cols xPoints <= INT_MAX)%Z ->
  0 <= Init_Sigma_Squared xPoints yPoints.
Proof.
  intros Hx Hy Hd Hp.
  assert (Hxy : (1 <= rows xPoints * rows yPoints)%Z) by nia.
  assert (Bxy : (rows xPoints * rows yPoints
                 <= rows xPoints * rows yPoints * cols xPoints)%Z) by nia.
  assert (Bx : (rows xPoints <= rows xPoints * rows yPoints)%Z) by nia.
  assert (By : (rows yPoints <= rows xPoints * rows yPoints)%Z) by nia.
  assert (Bd : (cols xPoints <= rows xPoints * rows yPoints * cols xPoints)%Z) by nia.
  rewrite Init_Sigma_Squared_sum. unfold int_mul.
  rewrite (to_int_id (rows xPoints)), (to_int_id (rows yPoints)),
    (to_int_id (cols xPoints)) by lia.
  rewrite (to_int_id (rows xPoints * rows yPoints)) by lia.
  rewrite (to_int_id (rows xPoints * rows yPoints * cols xPoints)) by lia.
  apply Rmult_le_pos.
  - apply Rlt_le, Rdiv_lt_0_compat; [lra |]. apply IZR_lt. lia.
  - apply sum_upto_nonneg. intros i _. apply sum_upto_nonneg. intros j _.
    apply squaredNorm_nonneg.
Qed.

End Variance_more.

(** ** Witnesses on the sample matrices *)

Section Witnesses.

Local Open Scope R_scope.

Lemma AlignedPointSet_identity_witness :
  (forall r k, coef Inputs.identity3 r k = if (r =? k)%Z then 1 else 0) /\
  (forall r, coef Inputs.zero_translation r 0%Z = 0) /\
  (0 <= 0 < cols Inputs.unit_x_cloud)%Z /\
  coef (AlignedPointSet Inputs.unit_x_cloud Inputs.identity3 Inputs.zero_translation 1) 5 0
  = coef Inputs.unit_x_cloud 5 0.
Proof.
  assert (HR : forall r k, coef Inputs.identity3 r k = if (r =? k)%Z then 1 else 0)
    by reflexivity.
  assert (Ht : forall r, coef Inputs.zero_translation r 0%Z = 0) by reflexivity.
  assert (Hj : (0 <= 0 < cols Inputs.unit_x_cloud)%Z) by (simpl; lia).
  split; [exact HR |]. split; [exact Ht |]. split; [exact Hj |].
  exact (proj2 (AlignedPointSet_identity Inputs.unit_x_cloud Inputs.identity3
                  Inputs.zero_translation 5 0 HR Ht Hj)).
Defined.




Lemma Init_Sigma_Squared_nonneg_witness :
  (1 <= rows Inputs.two_points)%Z /\ (1 <= rows Inputs.one_point)%Z /\
  (1 <= cols Inputs.two_points)%Z /\
  (rows Inputs.two_points * rows Inputs.one_point * cols Inputs.two_points <= INT_MAX)%Z /\
  0 <= Init_Sigma_Squared Inputs.two_points Inputs.one_point.
Proof.
  assert (Hx : (1 <= rows Inputs.two_points)%Z) by (simpl; lia).
  assert (Hy : (1 <= rows Inputs.one_point)%Z) by (simpl; lia).
  assert (Hd : (1 <= cols Inputs.two_points)%Z) by (simpl; lia).
  assert (Hp : (rows Inputs.two_points * rows Inputs.one_point * cols Inputs.two_points
                <= INT_MAX)%Z) by (unfold INT_MAX; simpl; lia).
  split; [exact Hx |]. split; [exact Hy |]. split; [exact Hd |]. split; [exact Hp |].
  exact (Init_Sigma_Squared_nonneg Inputs.two_points Inputs.one_point Hx Hy Hd Hp).
Defined.

End Witnesses.
